(** * Session management of the IMAP gateway: backend cache and login

    Shallow embedding of [pkg/imap/backend.go] (the IMAP backend that maps
    login addresses onto cached [imapUser] wrappers) and of the
    [FinishLogin] state machine of [pkg/users], followed by the properties
    of the specification.

    Conventions.
    - A Go function returning [(T, error)] returns a [result T].
    - A Go function returning only [error] returns an [option error]
      ([None] is Go's [nil]).
    - [ib.users], a Go [map[string]*imapUser], is a [gmap string imapUser].
    - Methods with a pointer receiver that mutate the receiver take the
      state and return the new state next to their result.
    - [usersLocker] is held for the whole of [getUser] and of [deleteUser]:
      each of them is one atomic step, and a concurrent execution is a
      sequence of such steps. *)

From Stdlib Require Import ZArith String Ascii List Bool Lia.
From stdpp Require Import gmap strings list.

#[local] Open Scope string_scope.
#[local] Open Scope list_scope.

(** ** Go values shared by both packages *)

(** Go's [error]: only the message matters here. *)
Definition error : Type := string.

(** A Go [(T, error)] return value. *)
Inductive result (A : Type) : Type :=
| Ok (a : A)
| Err (e : error).

Arguments Ok {A} a.
Arguments Err {A} e.

(** [time.Duration] counts nanoseconds. *)
Definition Duration : Type := Z.
Definition Second : Duration := 1000000000%Z.

(** [strings.ToLower] restricted to ASCII input: the letters [A]..[Z] are
    shifted to [a]..[z], every other byte is kept.  The backend below is
    parametric in the lower-casing function; this instance is the one the
    examples run with. *)
Definition lower_byte (c : ascii) : ascii :=
  let n := nat_of_ascii c in
  if (65 <=? n)%nat && (n <=? 90)%nat then ascii_of_nat (n + 32) else c.

Fixpoint ToLower_ascii (s : string) : string :=
  match s with
  | EmptyString => EmptyString
  | String c s' => String (lower_byte c) (ToLower_ascii s')
  end.

(** ** The IMAP backend, [pkg/imap/backend.go] *)

Module Imap.

Section Backend.

(** [*users.User] and [*store.Store] are declared outside the backend;
    the backend only calls their methods. *)
Context {User Store : Type}.

(** [strings.ToLower]. *)
Variable ToLower : string -> string.

(** [users.DecodeLogin]: splits the login name into address and slot. *)
Variable DecodeLogin : string -> string * string.

(** [GetPrimaryAddress] of [users.User]: the canonical address of the
    account the user object stands for.  It is one function for a whole
    run: an account keeps its primary address while the backend runs. *)
Variable GetPrimaryAddress : User -> string.

(** [*imapUser].  [iu_ptr] is the identity of the Go object: two wrappers
    built by two calls of [newIMAPUser] differ in it even when they wrap
    the same user. *)
Record imapUser : Type := mkIMAPUser {
  iu_ptr : nat;
  iu_user : User;
  iu_addressID : string;
  currentAddressLowercase : string
}.

(** The calls the backend makes on its collaborators that act on them,
    in the order they are issued. *)
Inductive Event : Type :=
| EvBringOnline (u : User) (slot password : string)
| EvCheckCredentials (u : User) (slot password : string)
| EvLogout (iu : imapUser)
| EvSleep (d : Duration)
| EvSetChangeNotifier (s : Store) (notifier : nat).

(** [imapBackend].  [updates] is the identity of the one [imapUpdates]
    object made by [NewIMAPBackend]; [allocated] counts the [imapUser]
    objects built so far; [calls] is the log of collaborator calls.  The
    fields the functions below never read are left out. *)
Record imapBackend : Type := mkBackend {
  users : gmap string imapUser;
  updates : nat;
  allocated : nat;
  calls : list Event
}.

Definition set_users (m : gmap string imapUser) (ib : imapBackend) : imapBackend :=
  mkBackend m (updates ib) (allocated ib) (calls ib).

Definition emit (e : Event) (ib : imapBackend) : imapBackend :=
  mkBackend (users ib) (updates ib) (allocated ib) (calls ib ++ [e]).

(** What the collaborators answer during one call of the backend.  Each
    field is the outcome of the method of that name; [newIMAPUser_fails]
    is the error of the constructor [newIMAPUser], if any.

    [imapUser.Logout] is declared in [user.go], outside these sources, and
    the wrapper it is called on holds the backend.  What it does to the
    cache is taken to be calls of [deleteUser]: [imapUser_Logout] lists
    their addresses, none when [Logout] leaves the backend alone.  Its
    error is not listed: [Login] only logs it. *)
Record Collaborators : Type := mkCollaborators {
  usersMgr_GetUser : string -> result User;
  user_BringOnline : User -> string -> string -> option error;
  user_GetAddressID : User -> string -> result string;
  newIMAPUser_fails : User -> string -> string -> option error;
  user_CheckCredentials : User -> string -> string -> option error;
  user_GetStore : User -> option Store;
  imapUser_Logout : imapUser -> list string
}.

(** [NewIMAPBackend]: an empty cache and a fresh [imapUpdates]. *)
Definition NewIMAPBackend (updatesObj : nat) : imapBackend :=
  mkBackend ∅ updatesObj 0 [].

(** [newIMAPUser]: on success a new object wrapping its arguments. *)
Definition newIMAPUser (c : Collaborators) (user : User)
    (addressID address : string) (ib : imapBackend)
  : result imapUser * imapBackend :=
  match newIMAPUser_fails c user addressID address with
  | Some e => (Err e, ib)
  | None =>
      (Ok (mkIMAPUser (allocated ib) user addressID address),
       mkBackend (users ib) (updates ib) (S (allocated ib)) (calls ib))
  end.

(** [createUser]; [address] is already in lower case. *)
Definition createUser (c : Collaborators) (address slot password : string)
    (ib : imapBackend) : result imapUser * imapBackend :=
  match usersMgr_GetUser c address with
  | Err e => (Err e, ib)
  | Ok user =>
      let ib := emit (EvBringOnline user slot password) ib in
      match user_BringOnline c user slot password with
      | Some e => (Err e, ib)
      | None =>
          let address := ToLower (GetPrimaryAddress user) in
          match users ib !! address with
          | Some combinedUser => (Ok combinedUser, ib)
          | None =>
              match user_GetAddressID c user address with
              | Err e => (Err e, ib)
              | Ok addressID =>
                  match newIMAPUser c user addressID address ib with
                  | (Err e, ib) => (Err e, ib)
                  | (Ok newUser, ib) =>
                      (Ok newUser, set_users (<[address := newUser]> (users ib)) ib)
                  end
              end
          end
      end
  end.

(** [getUser]. *)
Definition getUser (c : Collaborators) (address slot password : string)
    (ib : imapBackend) : result imapUser * imapBackend :=
  let address := ToLower address in
  match users ib !! address with
  | Some imapUser => (Ok imapUser, ib)
  | None => createUser c address slot password ib
  end.

(** [deleteUser]. *)
Definition deleteUser (address : string) (ib : imapBackend) : imapBackend :=
  set_users (delete (ToLower address) (users ib)) ib.

(** [imapUser.Logout], called by [Login] on the wrapper it has resolved:
    the call, then the evictions it asks the backend for. *)
Definition Logout (c : Collaborators) (iu : imapUser) (ib : imapBackend)
  : imapBackend :=
  fold_left (fun ib address => deleteUser address ib) (imapUser_Logout c iu)
    (emit (EvLogout iu) ib).

(** [Login]. *)
Definition Login (c : Collaborators) (username password : string)
    (ib : imapBackend) : result imapUser * imapBackend :=
  let '(username, slot) := DecodeLogin username in
  match getUser c username slot password ib with
  | (Err err, ib) => (Err err, ib)
  | (Ok imapUser, ib) =>
      let ib := emit (EvCheckCredentials (iu_user imapUser) slot password) ib in
      match user_CheckCredentials c (iu_user imapUser) slot password with
      | Some err =>
          let ib := Logout c imapUser ib in
          let ib := emit (EvSleep (10 * Second)%Z) ib in
          (Err err, ib)
      | None =>
          let ib :=
            match user_GetStore c (iu_user imapUser) with
            | Some store => emit (EvSetChangeNotifier store (updates ib)) ib
            | None => ib
            end in
          (Ok imapUser, ib)
      end
  end.

(** [monitorDisconnectedUsers]: the addresses received so far on the
    channel of [events.CloseConnectionEvent], handled in order. *)
Definition monitorDisconnectedUsers (ch : list string) (ib : imapBackend)
  : imapBackend :=
  fold_left (fun ib address => deleteUser address ib) ch ib.

End Backend.

End Imap.

(** ** Sequences of backend calls *)

Module ImapRun.

Section Run.

Context {User Store : Type}.
Variable ToLower : string -> string.
Variable DecodeLogin : string -> string * string.
Variable GetPrimaryAddress : User -> string.

(** One call on the backend, with what the collaborators answer during
    it.  [OpClose] is the delivery of one close-connection event to
    [monitorDisconnectedUsers]. *)
Inductive Op : Type :=
| OpLogin (c : Imap.Collaborators (User:=User) (Store:=Store))
    (username password : string)
| OpGetUser (c : Imap.Collaborators (User:=User) (Store:=Store))
    (address slot password : string)
| OpClose (address : string).

Definition step (ib : Imap.imapBackend) (op : Op)
  : Imap.imapBackend (User:=User) (Store:=Store) :=
  match op with
  | OpLogin c username password =>
      snd (Imap.Login ToLower DecodeLogin GetPrimaryAddress c username password ib)
  | OpGetUser c address slot password =>
      snd (Imap.getUser ToLower GetPrimaryAddress c address slot password ib)
  | OpClose address => Imap.deleteUser ToLower address ib
  end.

Definition run (ops : list Op) (ib : Imap.imapBackend) : Imap.imapBackend :=
  fold_left step ops ib.

(** Every cache key is the lower-cased primary address of the account
    its wrapper stands for. *)
Definition canonical (ib : Imap.imapBackend (User:=User) (Store:=Store)) : Prop :=
  forall k w, Imap.users ib !! k = Some w ->
    k = ToLower (GetPrimaryAddress (Imap.iu_user w)).

(** Number of [SetChangeNotifier] calls in a log. *)
Definition isSetChangeNotifier (e : Imap.Event (User:=User) (Store:=Store)) : bool :=
  match e with Imap.EvSetChangeNotifier _ _ => true | _ => false end.

Definition attachments (ib : Imap.imapBackend (User:=User) (Store:=Store)) : nat :=
  length (filter (fun e => isSetChangeNotifier e = true) (Imap.calls ib)).

(** The shape of every outcome of [createUser]: either the cache is kept
    (an error, or the wrapper cached under the primary address is
    returned), or one new wrapper is stored under the lower-cased
    primary address of the resolved user, which was free. *)
Inductive createUser_outcome
    (c : Imap.Collaborators (User:=User) (Store:=Store))
    (address slot password : string)
    (ib : Imap.imapBackend (User:=User) (Store:=Store))
  : result Imap.imapUser -> Imap.imapBackend -> Prop :=
| co_unresolved e :
    Imap.usersMgr_GetUser c address = Err e ->
    createUser_outcome c address slot password ib (Err e) ib
| co_offline u e :
    Imap.usersMgr_GetUser c address = Ok u ->
    Imap.user_BringOnline c u slot password = Some e ->
    createUser_outcome c address slot password ib (Err e)
      (Imap.emit (Imap.EvBringOnline u slot password) ib)
| co_combined u w :
    Imap.usersMgr_GetUser c address = Ok u ->
    Imap.user_BringOnline c u slot password = None ->
    Imap.users ib !! ToLower (GetPrimaryAddress u) = Some w ->
    createUser_outcome c address slot password ib (Ok w)
      (Imap.emit (Imap.EvBringOnline u slot password) ib)
| co_failed u e :
    Imap.usersMgr_GetUser c address = Ok u ->
    Imap.user_BringOnline c u slot password = None ->
    Imap.users ib !! ToLower (GetPrimaryAddress u) = None ->
    createUser_outcome c address slot password ib (Err e)
      (Imap.emit (Imap.EvBringOnline u slot password) ib)
| co_created u addressID :
    Imap.usersMgr_GetUser c address = Ok u ->
    Imap.user_BringOnline c u slot password = None ->
    Imap.users ib !! ToLower (GetPrimaryAddress u) = None ->
    let key := ToLower (GetPrimaryAddress u) in
    let w := Imap.mkIMAPUser (Imap.allocated ib) u addressID key in
    createUser_outcome c address slot password ib (Ok w)
      (Imap.mkBackend (<[key := w]> (Imap.users ib)) (Imap.updates ib) (S (Imap.allocated ib))
         (Imap.calls ib ++ [Imap.EvBringOnline u slot password])).

End Run.

End ImapRun.

(** ** A concrete deployment, to run the backend on

    Two accounts; the first has an alias next to its primary address.  The
    bridge password of both is [hunter2]. *)

Module Scenario.

Inductive Account : Type := Alice | Bob.

#[export] Instance Account_eq_dec : EqDecision Account.
Proof. solve_decision. Defined.

Definition primary (a : Account) : string :=
  match a with
  | Alice => "Alice@Proton.me"
  | Bob => "bob@proton.me"
  end.

Definition resolve (address : string) : result Account :=
  if decide (address = "alice@proton.me") then Ok Alice
  else if decide (address = "alice.alias@proton.me") then Ok Alice
  else if decide (address = "bob@proton.me") then Ok Bob
  else Err "user not found".

(** No slot is encoded in the login names used here. *)
Definition decode (username : string) : string * string := (username, "main").

Definition storeOf (a : Account) : option nat :=
  match a with Alice => Some 1 | Bob => Some 2 end.

Definition check (a : Account) (slot password : string) : option error :=
  if decide (password = "hunter2") then None else Some "backend/credentials: incorrect password".

(** Every collaborator call succeeds; the password is checked; [Logout]
    has the backend drop the entry of the wrapper it is called on. *)
Definition healthy : Imap.Collaborators (User:=Account) (Store:=nat) :=
  Imap.mkCollaborators
    resolve
    (fun _ _ _ => None)
    (fun a _ => Ok (match a with Alice => "addr-alice" | Bob => "addr-bob" end))
    (fun _ _ _ => None)
    check
    storeOf
    (fun w => [Imap.currentAddressLowercase w]).

Definition backend0 : Imap.imapBackend (User:=Account) (Store:=nat) :=
  Imap.NewIMAPBackend 7.

Definition getUser := Imap.getUser (Store:=nat) ToLower_ascii primary.
Definition createUser := Imap.createUser (Store:=nat) ToLower_ascii primary.
Definition Login := Imap.Login (Store:=nat) ToLower_ascii decode primary.
Definition deleteUser := Imap.deleteUser (User:=Account) (Store:=nat) ToLower_ascii.
Definition run := ImapRun.run (Store:=nat) ToLower_ascii decode primary.

End Scenario.

(** ** The session registry of [pkg/users]: [FinishLogin]

    [users.go] is not among the sources; only its tests
    ([users_login_test.go]) and the mock of its credential store are.  The
    registry is therefore modelled from the specification (section 4.1,
    the contracts of section 6 and the error taxonomy of section 7), with
    the return values the tests assert. *)

Module Users.

(** Modelled from the spec: the [auth] value of [FinishLogin], "the
    account's UID and refresh token (and, for new logins, the account
    id)"; the fields are those of [pmapi.Auth] in the test. *)
Record Auth : Type := mkAuth {
  auth_UserID : string;
  auth_UID : string;
  auth_AccessToken : string;
  auth_RefreshToken : string
}.

(** Modelled from the spec: the account profile the remote service
    returns, reduced to the account id and its addresses. *)
Record Profile : Type := mkProfile {
  p_ID : string;
  p_Emails : list string
}.

(** Modelled from the spec: the Credentials Record, "account id, current
    access/refresh token pair, mailbox-password-derived secret, list of
    associated email addresses" (the key slots, which [FinishLogin] never
    touches, are left out). *)
Record Credentials : Type := mkCredentials {
  c_UserID : string;
  c_UID : string;
  c_RefreshToken : string;
  c_Secret : string;
  c_Emails : list string
}.

(** Modelled from the spec: the Account Session.  [u_ptr] is the identity
    of the object, [u_connected] its connection status. *)
Record User : Type := mkUser {
  u_ptr : nat;
  u_ID : string;
  u_connected : bool
}.

(** Modelled from the spec: the remote-service client handle, as what it
    answers during one [FinishLogin]: the salt, the unlock of the private
    keys with a secret, the current profile, the deletion of the auth. *)
Record Client : Type := mkClient {
  AuthSalt : result string;
  Unlock : string -> option error;
  CurrentUser : result Profile;
  AuthDelete : option error
}.

(** Modelled from the spec: the key the store hands back with a new
    record.  The key string returned with a new session is made of it,
    and section 4.1 step 2 has that string non-empty: the key has a first
    byte. *)
Record DerivedKey : Type := mkDerivedKey {
  key_first : ascii;
  key_rest : string
}.

Definition keyString (key : DerivedKey) : string :=
  String (key_first key) (key_rest key).

(** Modelled from the spec: what the credential store answers during one
    [FinishLogin] ("all return an explicit error on I/O or not-found
    failure"): [Add] its key or an error, the two updates their I/O
    error, if any. *)
Record StoreFaults : Type := mkStoreFaults {
  answer_Add : result DerivedKey;
  fault_UpdateToken : option error;
  fault_UpdatePassword : option error
}.

(** The calls issued that change the credential store or the remote
    service, in order. *)
Inductive Call : Type :=
| CallAdd (id mainKey uid refreshToken secret : string) (emails : list string)
| CallUpdateToken (id uid refreshToken : string)
| CallUpdatePassword (id secret : string)
| CallAuthDelete (uid : string).

(** Modelled from the spec: the Session Registry with the Credential
    Store it calls.  [users] is the slice [users.users] of the test. *)
Record Users : Type := mkUsers {
  users : list User;
  credStorer : gmap string Credentials;
  allocated : nat;
  calls : list Call
}.

Definition ErrWrongMailboxPassword : error := "wrong mailbox password".
Definition ErrUserAlreadyConnected : error := "user is already connected".
Definition ErrNotFound : error := "credentials not found".

Definition issue (c : Call) (st : Users) : Users :=
  mkUsers (users st) (credStorer st) (allocated st) (calls st ++ [c]).

Definition set_credStorer (m : gmap string Credentials) (st : Users) : Users :=
  mkUsers (users st) m (allocated st) (calls st).

(** Modelled from the spec: [Add] of the Credential Store contract,
    [Add(id, uid, refreshToken, derivedKey, emailAddresses)], in the
    shape the mock of the interface has: four strings, the secret bytes
    and the addresses in, the record, key bytes and an error out.  The
    string the contract does not name is taken to be the main key, "used
    to re-wrap secrets". *)
Definition credStorer_Add (io : StoreFaults)
    (id mainKey uid refreshToken secret : string)
    (emails : list string) (st : Users) : result DerivedKey * Users :=
  let st := issue (CallAdd id mainKey uid refreshToken secret emails) st in
  match answer_Add io with
  | Err e => (Err e, st)
  | Ok key =>
      (Ok key,
       set_credStorer
         (<[id := mkCredentials id uid refreshToken secret emails]> (credStorer st))
         st)
  end.

(** Modelled from the spec: [UpdateToken(id, uid, refreshToken)]. *)
Definition credStorer_UpdateToken (io : StoreFaults) (id uid refreshToken : string)
    (st : Users) : option error * Users :=
  let st := issue (CallUpdateToken id uid refreshToken) st in
  match fault_UpdateToken io with
  | Some e => (Some e, st)
  | None =>
      match credStorer st !! id with
      | None => (Some ErrNotFound, st)
      | Some c =>
          (None,
           set_credStorer
             (<[id := mkCredentials id uid refreshToken (c_Secret c) (c_Emails c)]>
                (credStorer st))
             st)
      end
  end.

(** Modelled from the spec: [UpdatePassword(id, secret)]. *)
Definition credStorer_UpdatePassword (io : StoreFaults) (id secret : string)
    (st : Users) : option error * Users :=
  let st := issue (CallUpdatePassword id secret) st in
  match fault_UpdatePassword io with
  | Some e => (Some e, st)
  | None =>
      match credStorer st !! id with
      | None => (Some ErrNotFound, st)
      | Some c =>
          (None,
           set_credStorer
             (<[id := mkCredentials id (c_UID c) (c_RefreshToken c) secret (c_Emails c)]>
                (credStorer st))
             st)
      end
  end.

(** Modelled from the spec: the look-up of "an existing in-memory
    Account Session for that id". *)
Fixpoint hasUser (l : list User) (id : string) : option User :=
  match l with
  | [] => None
  | u :: l' => if decide (u_ID u = id) then Some u else hasUser l' id
  end.

(** The sessions the registry holds for one account. *)
Definition sessionsOf (id : string) (st : Users) : list User :=
  filter (fun u => u_ID u = id) (users st).

(** The transition Disconnected to Connected of one session object. *)
Definition connect (u : User) : User := mkUser (u_ptr u) (u_ID u) true.

Definition connectObject (ptr : nat) (st : Users) : Users :=
  mkUsers
    (map (fun u => if decide (u_ptr u = ptr) then connect u else u) (users st))
    (credStorer st) (allocated st) (calls st).

(** A new session object, Connected, appended to the registry. *)
Definition register (id : string) (st : Users) : User * Users :=
  let u := mkUser (allocated st) id true in
  (u, mkUsers (users st ++ [u]) (credStorer st) (S (allocated st)) (calls st)).

Section FinishLogin.

(** The secret derived from the mailbox password and the salt is
    computed by cryptographic code outside the registry.  So is the key
    string a reconnected session is returned with, from the main key and
    the secret: section 4.1 step 3 does not say what it is. *)
Variable deriveSecret : string -> string -> string.
Variable reconnectKeyString : string -> string -> string.

(** Modelled from the spec: the "salt-fetch/unlock/profile-fetch
    sequence" of steps 2 and 3.  A failed unlock is
    [ErrWrongMailboxPassword]; the errors of the two fetches are
    propagated. *)
Definition unlockSequence (client : Client) (mailboxPassword : string)
  : result (Profile * string) :=
  match AuthSalt client with
  | Err e => Err e
  | Ok salt =>
      let secret := deriveSecret mailboxPassword salt in
      match Unlock client secret with
      | Some _ => Err ErrWrongMailboxPassword
      | None =>
          match CurrentUser client with
          | Err e => Err e
          | Ok profile => Ok (profile, secret)
          end
      end
  end.

(** Modelled from the spec: [FinishLogin(client, auth, mailboxPassword,
    mainKey)] of [users.go], steps 1 to 4 of section 4.1.  It returns
    the session (or none), the derived key string and the error (or
    none).  The salt-fetch/unlock/profile-fetch sequence comes first
    whatever session the account has: the calls the tests expect are
    [AuthSalt], [Unlock], [CurrentUser] and then the store updates for a
    Disconnected user, and the same three and then [AuthDelete] for a
    Connected one.  A failed call returns no session and the empty key
    string. *)
Definition FinishLogin (client : Client) (io : StoreFaults) (auth : Auth)
    (mailboxPassword mainKey : string) (st : Users)
  : (option User * string * option error) * Users :=
  let id := auth_UserID auth in
  match unlockSequence client mailboxPassword with
  | Err e => ((None, "", Some e), st)
  | Ok (profile, secret) =>
      match hasUser (users st) id with
      | None =>
          match credStorer_Add io id mainKey (auth_UID auth)
                  (auth_RefreshToken auth) secret (p_Emails profile) st with
          | (Err e, st) => ((None, "", Some e), st)
          | (Ok key, st) =>
              let '(user, st) := register id st in
              ((Some user, keyString key, None), st)
          end
      | Some user =>
          if u_connected user then
            let st := issue (CallAuthDelete (auth_UID auth)) st in
            ((None, "", Some ErrUserAlreadyConnected), st)
          else
            match credStorer_UpdateToken io id (auth_UID auth)
                    (auth_RefreshToken auth) st with
            | (Some e, st) => ((None, "", Some e), st)
            | (None, st) =>
                match credStorer_UpdatePassword io id secret st with
                | (Some e, st) => ((None, "", Some e), st)
                | (None, st) =>
                    ((Some (connect user), reconnectKeyString mainKey secret,
                      None),
                     connectObject (u_ptr user) st)
                end
            end
      end
  end.

(** One [FinishLogin] with what the remote service and the store answer
    during it, and a sequence of them. *)
Record Attempt : Type := mkAttempt {
  at_client : Client;
  at_faults : StoreFaults;
  at_auth : Auth;
  at_mailboxPassword : string;
  at_mainKey : string
}.

Definition attempt (st : Users) (a : Attempt) : Users :=
  snd (FinishLogin (at_client a) (at_faults a) (at_auth a)
         (at_mailboxPassword a) (at_mainKey a) st).

Definition attempts (l : list Attempt) (st : Users) : Users :=
  fold_left attempt l st.

End FinishLogin.

(** Modelled from the spec: the registry at startup, one Disconnected
    session "from persisted credentials" per record of the store. *)
Definition loadUsersFromCredentialsStore (store : gmap string Credentials) : Users :=
  let ids := (map_to_list store).*1 in
  mkUsers (imap (fun i id => mkUser i id false) ids) store (length ids) [].

(** The invariant of the registry: one session object per account id,
    every object allocated once. *)
Definition wf (st : Users) : Prop :=
  NoDup (u_ID <$> users st)
  /\ NoDup (u_ptr <$> users st)
  /\ Forall (fun u => u_ptr u < allocated st) (users st).

(** Registry and store agree: an account has a persisted record exactly
    when it has a session.  Sessions are made from persisted records at
    startup and by a [FinishLogin] that persists one. *)
Definition coherent (st : Users) : Prop :=
  forall id, is_Some (credStorer st !! id) <-> is_Some (hasUser (users st) id).

End Users.

(** ** A concrete registry, to run [FinishLogin] on *)

Module UsersScenario.

Definition deriveSecret (password salt : string) : string :=
  String.append salt password.

(** A reconnected session comes with the empty key string, as the test
    of the disconnected user has it. *)
Definition reconnectKeyString (mainKey secret : string) : string := "".

Definition FinishLogin := Users.FinishLogin deriveSecret reconnectKeyString.

Definition testKey : Users.DerivedKey := Users.mkDerivedKey "k" "ey".

Definition testAuthRefresh : Users.Auth := Users.mkAuth "user" "uid" "acc" "ref".

Definition testProfile : Users.Profile := Users.mkProfile "user" ["user@pm.me"].

(** The mailbox password [pass] unlocks the keys, any other does not. *)
Definition client : Users.Client :=
  Users.mkClient
    (Ok "")
    (fun secret => if decide (secret = "pass") then None
                   else Some "no keys could be unlocked")
    (Ok testProfile)
    None.

Definition noFaults : Users.StoreFaults :=
  Users.mkStoreFaults (Ok testKey) None None.

Definition testCredentialsDisconnected : Users.Credentials :=
  Users.mkCredentials "user" "" "" "" ["user@pm.me"].

(** No user from the keychain. *)
Definition empty : Users.Users := Users.loadUsersFromCredentialsStore ∅.

(** One disconnected user from the keychain. *)
Definition disconnected : Users.Users :=
  Users.loadUsersFromCredentialsStore {[ "user" := testCredentialsDisconnected ]}.


End UsersScenario.

(** ** The key-value store of the settings, [pkg/config/settings/kvs.go]

    The store is used by one caller at a time here: each method holds
    [lock] for its own duration, [setDefault] reads and then writes.  The
    warnings and errors handed to [logrus] are not recorded. *)

Module Settings.

(** [keyValueStore].  A Go map may be [nil]: [cache] is [None] until
    [load] has run. *)
Record keyValueStore : Type := mkKeyValueStore {
  cache : option (gmap string string);
  path : string
}.

(** What lies outside the package during one call: [ioutil.ReadFile] on a
    path, and [yaml.Unmarshal(data, &p.cache)], which is handed the map
    variable and leaves it with a new value, next to its error. *)
Record Files : Type := mkFiles {
  ReadFile : string -> result string;
  Unmarshal : string -> option (gmap string string)
              -> option error * option (gmap string string)
}.

(** [load]. *)
Definition load (fs : Files) (p : keyValueStore) : option error * keyValueStore :=
  match cache p with
  | Some _ => (None, p)
  | None =>
      let p := mkKeyValueStore (Some ∅) (path p) in
      match ReadFile fs (path p) with
      | Err err => (Some err, p)
      | Ok data =>
          if decide (String.length data = 0) then (None, p)
          else
            let '(err, m) := Unmarshal fs data (cache p) in
            (err, mkKeyValueStore m (path p))
      end
  end.

(** [newKeyValueStore]: the error of [load] is only logged. *)
Definition newKeyValueStore (fs : Files) (path : string) : keyValueStore :=
  snd (load fs (mkKeyValueStore None path)).

(** [Get]: reading a key a Go map does not hold, or reading a [nil] map,
    gives the empty string. *)
Definition Get (key : string) (p : keyValueStore) : string :=
  match cache p with
  | Some m => default "" (m !! key)
  | None => ""
  end.

(** [set]: writing into a [nil] map is a run-time panic, [None] here. *)
Definition set (key value : string) (p : keyValueStore) : option keyValueStore :=
  match cache p with
  | Some m => Some (mkKeyValueStore (Some (<[key := value]> m)) (path p))
  | None => None
  end.

(** [setDefault]. *)
Definition setDefault (key value : string) (p : keyValueStore)
  : option keyValueStore :=
  if decide (Get key p = "") then set key value p else Some p.

(** [GetBool]. *)
Definition GetBool (key : string) (p : keyValueStore) : bool :=
  bool_decide (Get key p = "true").

Section Numbers.

(** [strconv.Atoi] and [strconv.ParseFloat(_, 64)]: each returns a value
    next to its error, and the getters keep the value whatever the
    error. *)
Context {float64 : Type}.
Variable Atoi : string -> Z * option error.
Variable ParseFloat64 : string -> float64 * option error.
Variable zero : float64.

(** [GetInt]. *)
Definition GetInt (key : string) (p : keyValueStore) : Z :=
  if decide (Get key p = "") then 0%Z else fst (Atoi (Get key p)).

(** [GetFloat64]. *)
Definition GetFloat64 (key : string) (p : keyValueStore) : float64 :=
  if decide (Get key p = "") then zero else fst (ParseFloat64 (Get key p)).

End Numbers.

(** The writes of a caller, in order; a panic ends the sequence. *)
Inductive Write : Type :=
| WSet (key value : string)
| WSetDefault (key value : string).

Definition write (w : Write) (p : keyValueStore) : option keyValueStore :=
  match w with
  | WSet key value => set key value p
  | WSetDefault key value => setDefault key value p
  end.

Fixpoint writes (ws : list Write) (p : keyValueStore) : option keyValueStore :=
  match ws with
  | [] => Some p
  | w :: ws' =>
      match write w p with
      | Some p' => writes ws' p'
      | None => None
      end
  end.

End Settings.

(** ** A concrete file system, to run the store on *)

Module SettingsScenario.

(** [prefs.json] cannot be read; [empty.json] is an empty file. *)
Definition noFile : Settings.Files :=
  Settings.mkFiles
    (fun path => if decide (path = "empty.json") then Ok ""
                 else Err "open prefs.json: no such file or directory")
    (fun _ m => (None, m)).

(** Later the file is there, with one setting in it. *)
Definition withFile : Settings.Files :=
  Settings.mkFiles
    (fun _ => Ok "user_ssl_smtp: true")
    (fun _ _ => (None, Some {[ "user_ssl_smtp" := "true" ]})).

Definition store0 : Settings.keyValueStore :=
  Settings.newKeyValueStore noFile "prefs.json".

End SettingsScenario.

(** * Properties of the IMAP backend *)

Module ImapTheory.

Import Imap ImapRun.

Section Theory.

Context {User Store : Type}.
Variable ToLower : string -> string.
Variable DecodeLogin : string -> string * string.
Variable GetPrimaryAddress : User -> string.

#[local] Abbreviation Backend := (imapBackend (User:=User) (Store:=Store)).
#[local] Abbreviation Collab := (Collaborators (User:=User) (Store:=Store)).
#[local] Abbreviation createUser' := (createUser ToLower GetPrimaryAddress).
#[local] Abbreviation getUser' := (getUser ToLower GetPrimaryAddress).
#[local] Abbreviation Login' := (Login ToLower DecodeLogin GetPrimaryAddress).
#[local] Abbreviation deleteUser' := (deleteUser ToLower).
#[local] Abbreviation canonical' := (canonical ToLower GetPrimaryAddress).
#[local] Abbreviation run' := (run ToLower DecodeLogin GetPrimaryAddress).
#[local] Abbreviation step' := (step ToLower DecodeLogin GetPrimaryAddress).
#[local] Abbreviation outcome' := (createUser_outcome ToLower GetPrimaryAddress).

(** *** What one call does to the cache and to the log *)

Lemma createUser_inv (c : Collab) address slot password (ib : Backend) :
  outcome' c address slot password ib
    (fst (createUser' c address slot password ib))
    (snd (createUser' c address slot password ib)).
Proof.
  unfold createUser.
  destruct (usersMgr_GetUser c address) as [u|e] eqn:Hu; simpl.
  2: { by apply co_unresolved. }
  destruct (user_BringOnline c u slot password) as [e|] eqn:Hb; simpl.
  { by apply co_offline. }
  destruct (users ib !! ToLower (GetPrimaryAddress u)) as [w|] eqn:Hk; simpl.
  { by apply co_combined. }
  destruct (user_GetAddressID c u _) as [aid|e] eqn:Ha; simpl.
  2: { by apply co_failed. }
  unfold newIMAPUser; simpl.
  destruct (newIMAPUser_fails c u aid _) as [e|] eqn:Hn; simpl.
  { by apply co_failed. }
  by apply (co_created ToLower GetPrimaryAddress c address slot password ib u aid).
Qed.

Lemma createUser_canonical (c : Collab) address slot password (ib : Backend) :
  canonical' ib -> canonical' (snd (createUser' c address slot password ib)).
Proof.
  intros Hc.
  destruct (createUser_inv c address slot password ib); try exact Hc.
  intros k w'. simpl. rewrite lookup_insert. case_decide as Hk.
  - intros [= <-]. by subst k.
  - apply Hc.
Qed.

Lemma getUser_canonical (c : Collab) address slot password (ib : Backend) :
  canonical' ib -> canonical' (snd (getUser' c address slot password ib)).
Proof.
  intros Hc. unfold getUser.
  destruct (users ib !! ToLower address); [exact Hc|].
  by apply createUser_canonical.
Qed.

Lemma deleteUser_canonical address (ib : Backend) :
  canonical' ib -> canonical' (deleteUser' address ib).
Proof.
  intros Hc k w. unfold deleteUser. simpl.
  rewrite lookup_delete. case_decide; [done|]. apply Hc.
Qed.

(** *** Evictions *)

Lemma deleteUsers_fields l (ib : Backend) :
  updates (fold_left (fun ib a => deleteUser' a ib) l ib) = updates ib
  /\ allocated (fold_left (fun ib a => deleteUser' a ib) l ib) = allocated ib
  /\ calls (fold_left (fun ib a => deleteUser' a ib) l ib) = calls ib.
Proof.
  revert ib. induction l as [|a l IH]; intros ib; [done|].
  cbn [fold_left]. destruct (IH (deleteUser' a ib)) as (-> & -> & ->). done.
Qed.

Lemma deleteUsers_lookup l (ib : Backend) k :
  users (fold_left (fun ib a => deleteUser' a ib) l ib) !! k
  = if decide (k ∈ ToLower <$> l) then None else users ib !! k.
Proof.
  revert ib. induction l as [|a l IH]; intros ib; cbn [fold_left].
  - rewrite decide_False; [done|]. apply not_elem_of_nil.
  - rewrite IH, fmap_cons. unfold deleteUser at 1. cbn [users set_users].
    destruct (decide (k ∈ ToLower <$> l)) as [Hin|Hout].
    + rewrite decide_True; [done|]. by right.
    + rewrite lookup_delete. case_decide as Heq.
      * rewrite decide_True; [done|]. subst k. by left.
      * rewrite decide_False; [done|].
        rewrite not_elem_of_cons. split; [congruence|exact Hout].
Qed.

Lemma Logout_fields (c : Collab) w (ib : Backend) :
  updates (Logout ToLower c w ib) = updates ib
  /\ allocated (Logout ToLower c w ib) = allocated ib
  /\ calls (Logout ToLower c w ib) = calls ib ++ [EvLogout w].
Proof.
  unfold Logout.
  destruct (deleteUsers_fields (imapUser_Logout c w) (emit (EvLogout w) ib))
    as (-> & -> & ->). done.
Qed.

Lemma Logout_lookup (c : Collab) w (ib : Backend) k :
  users (Logout ToLower c w ib) !! k
  = if decide (k ∈ ToLower <$> imapUser_Logout c w) then None
    else users ib !! k.
Proof. unfold Logout. by rewrite deleteUsers_lookup. Qed.

(** After [getUser], [Login] stores nothing: the cache it leaves is the
    one [getUser] left, less what a [Logout] has evicted. *)
Lemma Login_users_sub (c : Collab) username password (ib : Backend) k w :
  users (snd (Login' c username password ib)) !! k = Some w ->
  users (snd (getUser' c (DecodeLogin username).1 (DecodeLogin username).2
                  password ib)) !! k = Some w.
Proof.
  unfold Login. destruct (DecodeLogin username) as [address slot]. simpl.
  destruct (getUser' c address slot password ib) as [[w1|e] ib1]; [|done].
  destruct (user_CheckCredentials c (iu_user w1) slot password).
  - cbn [snd emit users]. rewrite Logout_lookup. by case_decide.
  - by destruct (user_GetStore c (iu_user w1)).
Qed.

Lemma Login_canonical (c : Collab) username password (ib : Backend) :
  canonical' ib -> canonical' (snd (Login' c username password ib)).
Proof.
  intros Hc k w Hk. apply Login_users_sub in Hk.
  revert Hk. by apply getUser_canonical.
Qed.

Lemma step_canonical (ib : Backend) op : canonical' ib -> canonical' (step' ib op).
Proof.
  destruct op; simpl.
  - apply Login_canonical.
  - apply getUser_canonical.
  - apply deleteUser_canonical.
Qed.

Lemma run_canonical ops (ib : Backend) : canonical' ib -> canonical' (run' ops ib).
Proof.
  revert ib. induction ops as [|op ops IH]; intros ib Hc; [exact Hc|].
  simpl. apply IH. by apply step_canonical.
Qed.

Lemma NewIMAPBackend_canonical updatesObj :
  canonical' (NewIMAPBackend updatesObj : Backend).
Proof. intros k w. simpl. by rewrite lookup_empty. Qed.

(** *** The log of one call *)

Lemma createUser_calls (c : Collab) address slot password (ib : Backend) :
  calls (snd (createUser' c address slot password ib)) = calls ib
  \/ exists u, calls (snd (createUser' c address slot password ib))
               = calls ib ++ [EvBringOnline u slot password].
Proof.
  destruct (createUser_inv c address slot password ib); simpl; eauto.
Qed.

Lemma getUser_calls (c : Collab) address slot password (ib : Backend) :
  calls (snd (getUser' c address slot password ib)) = calls ib
  \/ exists u, calls (snd (getUser' c address slot password ib))
               = calls ib ++ [EvBringOnline u slot password].
Proof.
  unfold getUser. destruct (users ib !! ToLower address); [by left|].
  apply createUser_calls.
Qed.

Lemma getUser_updates (c : Collab) address slot password (ib : Backend) :
  updates (snd (getUser' c address slot password ib)) = updates ib.
Proof.
  unfold getUser. destruct (users ib !! ToLower address); [done|].
  by destruct (createUser_inv c (ToLower address) slot password ib).
Qed.

Lemma getUser_attachments (c : Collab) address slot password (ib : Backend) :
  attachments (snd (getUser' c address slot password ib)) = attachments ib.
Proof.
  unfold attachments.
  destruct (getUser_calls c address slot password ib) as [->|[u ->]]; [done|].
  rewrite filter_app. simpl. by rewrite app_nil_r.
Qed.

Lemma attachments_emit e (ib : Backend) :
  attachments (emit e ib)
  = (attachments ib + if isSetChangeNotifier e then 1 else 0)%nat.
Proof.
  unfold attachments, emit. simpl. rewrite filter_app, length_app.
  f_equal. destruct e; reflexivity.
Qed.

(** *** The claims *)

(** C1. Single-instance invariant.  After any sequence of [Login],
    [getUser] and close-connection calls on a new backend, whatever the
    addresses, their casing and the collaborators' answers: every cache
    entry is stored under the lower-cased primary address of its
    account; two entries of accounts with the same primary address are
    one entry holding one wrapper; and [createUser] for an address that
    resolves to an account whose wrapper is cached returns that very
    wrapper and leaves the cache as it is. *)
Theorem single_instance_invariant (ops : list Op) (updatesObj : nat) :
  let ib : Backend := run' ops (NewIMAPBackend updatesObj) in
  (forall k w, users ib !! k = Some w ->
     k = ToLower (GetPrimaryAddress (iu_user w)))
  /\ (forall k1 k2 w1 w2,
        users ib !! k1 = Some w1 -> users ib !! k2 = Some w2 ->
        GetPrimaryAddress (iu_user w1) = GetPrimaryAddress (iu_user w2) ->
        k1 = k2 /\ w1 = w2)
  /\ (forall (c : Collab) alias slot password u w,
        usersMgr_GetUser c alias = Ok u ->
        user_BringOnline c u slot password = None ->
        users ib !! ToLower (GetPrimaryAddress u) = Some w ->
        fst (createUser' c alias slot password ib) = Ok w
        /\ users (snd (createUser' c alias slot password ib)) = users ib).
Proof.
  intros ib.
  assert (Hc : canonical' ib)
    by apply run_canonical, NewIMAPBackend_canonical.
  split; [exact Hc|]. split.
  - intros k1 k2 w1 w2 H1 H2 Hp.
    assert (k1 = k2) as ->.
    { rewrite (Hc _ _ H1), (Hc _ _ H2). by rewrite Hp. }
    split; [done|]. congruence.
  - intros c alias slot password u w Hu Hb Hw.
    unfold createUser. rewrite Hu. simpl. rewrite Hb. simpl.
    by rewrite Hw.
Qed.

(** C6, as the code has it.  Every successful [Login] whose user has a
    store calls [SetChangeNotifier] on that store, with the backend's one
    [updates] object, as its last call, on the first login of an account
    and on every later one; a successful [Login] whose user has no store
    attaches nothing.  [updates] itself never changes. *)
Theorem Login_attaches_notifier (c : Collab) username password (ib : Backend)
    w ib' :
  Login' c username password ib = (Ok w, ib') ->
  updates ib' = updates ib
  /\ match user_GetStore c (iu_user w) with
     | Some store =>
         (exists pre, calls ib' = pre ++ [EvSetChangeNotifier store (updates ib)])
         /\ attachments ib' = S (attachments ib)
     | None => attachments ib' = attachments ib
     end.
Proof.
  unfold Login. destruct (DecodeLogin username) as [address slot].
  pose proof (getUser_updates c address slot password ib) as Hupd.
  pose proof (getUser_attachments c address slot password ib) as Hatt.
  destruct (getUser' c address slot password ib) as [[w1|e] ib1]; [|done].
  simpl in Hupd, Hatt.
  destruct (user_CheckCredentials c (iu_user w1) slot password); [done|].
  intros [= <- <-].
  destruct (user_GetStore c (iu_user w1)) as [store|]; simpl.
  - split; [done|]. split.
    + eexists. by rewrite Hupd.
    + rewrite !attachments_emit. simpl. lia.
  - split; [done|]. rewrite attachments_emit. simpl. lia.
Qed.

(** C7. A [Login] whose session resolves and whose credential check
    fails returns no session and the error of the check, after having
    called, in this order, [CheckCredentials], [Logout] on the resolved
    wrapper and [Sleep] for ten seconds; the cache it leaves is the one
    resolution left, less the entries [Logout] has had the backend evict.
    A [Login] whose resolution fails returns the error of the resolution
    and the state resolution left: the credential check is not called,
    nor [Logout], nor [Sleep]. *)
Theorem Login_credential_failure (c : Collab) username password (ib : Backend) :
  let address := (DecodeLogin username).1 in
  let slot := (DecodeLogin username).2 in
  let resolved := getUser' c address slot password ib in
  (forall w err,
      fst resolved = Ok w ->
      user_CheckCredentials c (iu_user w) slot password = Some err ->
      Login' c username password ib
      = (Err err,
         emit (EvSleep (10 * Second)%Z)
           (Logout ToLower c w
              (emit (EvCheckCredentials (iu_user w) slot password)
                 (snd resolved))))
      /\ calls (snd (Login' c username password ib))
         = calls (snd resolved)
           ++ [EvCheckCredentials (iu_user w) slot password;
               EvLogout w; EvSleep (10 * Second)%Z]
      /\ (3 * Second <= 10 * Second)%Z
      /\ forall k,
           users (snd (Login' c username password ib)) !! k
           = if decide (k ∈ ToLower <$> imapUser_Logout c w) then None
             else users (snd resolved) !! k)
  /\ (forall e,
        fst resolved = Err e ->
        Login' c username password ib = (Err e, snd resolved)
        /\ (calls (snd resolved) = calls ib
            \/ exists u, calls (snd resolved)
                         = calls ib ++ [EvBringOnline u slot password])).
Proof.
  intros address slot resolved. subst address slot resolved.
  pose proof (getUser_calls c (DecodeLogin username).1
                (DecodeLogin username).2 password ib) as Hcalls.
  unfold Login. destruct (DecodeLogin username) as [address slot].
  cbn [fst snd] in *.
  destruct (getUser' c address slot password ib) as [[w1|e1] ib1];
    cbn [fst snd] in *.
  - split; [|intros e [=]].
    intros w err [= ->] ->. split; [reflexivity|]. cbn [snd].
    destruct (Logout_fields c w
                (emit (EvCheckCredentials (iu_user w) slot password) ib1))
      as (_ & _ & Hlog).
    split; [|split; [unfold Second; lia|]].
    + cbn [emit calls]. rewrite Hlog. cbn [emit calls].
      by rewrite <- !app_assoc.
    + intros k. cbn [emit users]. by rewrite Logout_lookup.
  - split; [intros w err [=]|].
    intros e [= ->]. by split.
Qed.

(** C8. Eviction is idempotent: [deleteUser] twice is [deleteUser] once;
    [deleteUser] leaves the backend as it is exactly when the address
    has no entry; and two deliveries of one close-connection event leave
    the state one delivery leaves. *)
Theorem deleteUser_idempotent (address : string) (ib : Backend) :
  deleteUser' address (deleteUser' address ib) = deleteUser' address ib
  /\ (deleteUser' address ib = ib <-> users ib !! ToLower address = None)
  /\ monitorDisconnectedUsers ToLower [address; address] ib
     = monitorDisconnectedUsers ToLower [address] ib.
Proof.
  assert (Hidem : deleteUser' address (deleteUser' address ib)
                  = deleteUser' address ib).
  { unfold deleteUser, set_users. simpl. f_equal.
    apply map_eq. intros k. rewrite !lookup_delete.
    by repeat case_decide. }
  split; [exact Hidem|]. split; [|exact Hidem].
  split.
  - intros Heq. rewrite <- Heq. unfold deleteUser. simpl.
    by rewrite lookup_delete_eq.
  - intros Hn. destruct ib as [m u a l]. unfold deleteUser, set_users.
    simpl in *. f_equal. by apply delete_id.
Qed.

(** C9. Login identity is case-insensitive.  For two addresses with one
    lower-cased form, from any backend state: [getUser] gives the two the
    same result and leaves the same state; the cache is consulted under
    the lower-cased address, and a hit returns the cached wrapper to
    both and changes nothing; on a miss the user is resolved for the
    lower-cased address and, bring-online and construction succeeding,
    the wrapper built is stored under the lower-cased primary address
    (or the one cached there is returned), and asked again in the state
    left, either casing gets that very wrapper and nothing more is
    stored. *)
Theorem getUser_case_insensitive (c : Collab) a a' slot password (ib : Backend) :
  ToLower a = ToLower a' ->
  getUser ToLower GetPrimaryAddress c a slot password ib
  = getUser ToLower GetPrimaryAddress c a' slot password ib
  /\ (forall w,
        users ib !! ToLower a = Some w ->
        getUser ToLower GetPrimaryAddress c a slot password ib = (Ok w, ib)
        /\ getUser ToLower GetPrimaryAddress c a' slot password ib = (Ok w, ib))
  /\ (forall u,
        users ib !! ToLower a = None ->
        usersMgr_GetUser c (ToLower a) = Ok u ->
        user_BringOnline c u slot password = None ->
        let key := ToLower (GetPrimaryAddress u) in
        let ib1 := snd (getUser' c a' slot password ib) in
        (forall w, users ib !! key = Some w ->
           fst (getUser' c a' slot password ib) = Ok w
           /\ users ib1 = users ib)
        /\ (forall addressID,
              users ib !! key = None ->
              user_GetAddressID c u key = Ok addressID ->
              newIMAPUser_fails c u addressID key = None ->
              let w := mkIMAPUser (allocated ib) u addressID key in
              fst (getUser' c a' slot password ib) = Ok w
              /\ users ib1 = <[key := w]> (users ib)
              /\ fst (getUser' c a slot password ib1) = Ok w
              /\ fst (getUser' c a' slot password ib1) = Ok w
              /\ users (snd (getUser' c a slot password ib1)) = users ib1))
  /\ (forall w ib1,
        getUser ToLower GetPrimaryAddress c a slot password ib = (Ok w, ib1) ->
        fst (getUser ToLower GetPrimaryAddress c a' slot password ib1) = Ok w
        /\ users (snd (getUser ToLower GetPrimaryAddress c a' slot password ib1))
           = users ib1).
Proof.
  intros Hlow.
  assert (Hsame : forall ib0 : Backend,
             getUser' c a slot password ib0 = getUser' c a' slot password ib0).
  { intros ib0. unfold getUser. by rewrite Hlow. }
  assert (Hagain : forall w (ib1 : Backend),
             getUser' c a slot password ib = (Ok w, ib1) ->
             fst (getUser' c a' slot password ib1) = Ok w
             /\ users (snd (getUser' c a' slot password ib1)) = users ib1).
  { intros w ib1. unfold getUser. rewrite <- Hlow.
    destruct (users ib !! ToLower a) as [w0|] eqn:Hhit.
    { intros [= <- <-]. by rewrite Hhit. }
    intros Hcreate.
    pose proof (createUser_inv c (ToLower a) slot password ib) as Hinv.
    rewrite Hcreate in Hinv. simpl in Hinv.
    inversion Hinv as [| |u w1 Hu Hb Hk|?|u aid Hu Hb Hk]; subst; simpl.
    - rewrite Hhit. unfold createUser. rewrite Hu. simpl. rewrite Hb. simpl.
      by rewrite Hk.
    - rewrite lookup_insert. case_decide as Hkey; [done|].
      rewrite Hhit. unfold createUser. rewrite Hu. simpl. rewrite Hb. simpl.
      by rewrite lookup_insert_eq. }
  split; [apply Hsame|]. split; [|split; [|exact Hagain]].
  - intros w Hhit. rewrite <- Hsame. unfold getUser. by rewrite Hhit.
  - intros u Hmiss Hu Hb key ib1. subst ib1. rewrite <- Hsame. split.
    + intros w Hw. unfold getUser. rewrite Hmiss.
      unfold createUser. rewrite Hu. simpl. rewrite Hb. fold key.
      by rewrite Hw.
    + intros addressID Hfree Haid Hnew w.
      assert (Hrun : getUser' c a slot password ib
                     = (Ok w, mkBackend (<[key := w]> (users ib)) (updates ib)
                                (S (allocated ib))
                                (calls ib ++ [EvBringOnline u slot password]))).
      { unfold getUser. rewrite Hmiss. unfold createUser. rewrite Hu. simpl.
        rewrite Hb. fold key. rewrite Hfree, Haid. unfold newIMAPUser. simpl.
        by rewrite Hnew. }
      destruct (Hagain _ _ Hrun) as [Hfst Husers].
      rewrite Hrun. cbn [fst snd users].
      split; [done|]. split; [done|].
      rewrite Hsame. split; [exact Hfst|]. split; [exact Hfst|exact Husers].
Qed.

End Theory.

(** *** The ASCII lower-casing *)

Lemma lower_byte_idempotent c : lower_byte (lower_byte c) = lower_byte c.
Proof. destruct c as [[] [] [] [] [] [] [] []]; reflexivity. Qed.

Lemma ToLower_ascii_idempotent s :
  ToLower_ascii (ToLower_ascii s) = ToLower_ascii s.
Proof.
  induction s as [|c s IH]; simpl; [done|].
  by rewrite lower_byte_idempotent, IH.
Qed.

(** With it, an address and its lower-cased form are one login. *)
Lemma getUser_lowered {User Store : Type} (primary : User -> string)
    (c : Collaborators (User:=User) (Store:=Store)) address slot password ib :
  getUser ToLower_ascii primary c address slot password ib
  = getUser ToLower_ascii primary c (ToLower_ascii address) slot password ib.
Proof. unfold getUser. by rewrite ToLower_ascii_idempotent. Qed.

(** *** The claims on the concrete deployment *)

(** On a run: after Alice and Bob have logged in, each under another
    casing of the primary address, the login of Alice's alias returns the
    wrapper Alice already has, and the cache keeps its two entries. *)
Lemma single_instance_invariant_witness :
  let ib := Scenario.run
              [OpLogin Scenario.healthy "Alice@Proton.me" "hunter2";
               OpLogin Scenario.healthy "BOB@proton.me" "hunter2"] Scenario.backend0 in
  let w := mkIMAPUser 0 Scenario.Alice "addr-alice" "alice@proton.me" in
  users ib !! "alice@proton.me" = Some w
  /\ fst (Scenario.createUser Scenario.healthy "alice.alias@proton.me" "main" "hunter2" ib)
     = Ok w
  /\ users (snd (Scenario.createUser Scenario.healthy "alice.alias@proton.me" "main"
                   "hunter2" ib)) = users ib.
Proof.
  intros ib w.
  destruct (single_instance_invariant ToLower_ascii Scenario.decode Scenario.primary
              [OpLogin Scenario.healthy "Alice@Proton.me" "hunter2";
               OpLogin Scenario.healthy "BOB@proton.me" "hunter2"] 7)
    as (_ & _ & Halias).
  split; [vm_compute; reflexivity|].
  apply (Halias Scenario.healthy "alice.alias@proton.me" "main" "hunter2" Scenario.Alice w);
    vm_compute; reflexivity.
Defined.

(** Alice logs in twice: both logins succeed and return
    one wrapper, and the second login calls [SetChangeNotifier] on her store
    again. *)
Lemma second_Login_attaches_again :
  let r1 := Scenario.Login Scenario.healthy "alice@proton.me" "hunter2" Scenario.backend0 in
  let r2 := Scenario.Login Scenario.healthy "alice@proton.me" "hunter2" (snd r1) in
  let w := mkIMAPUser 0 Scenario.Alice "addr-alice" "alice@proton.me" in
  fst r1 = Ok w /\ fst r2 = Ok w
  /\ calls (snd r1)
     = [EvBringOnline Scenario.Alice "main" "hunter2";
        EvCheckCredentials Scenario.Alice "main" "hunter2";
        EvSetChangeNotifier 1 7]
  /\ calls (snd r2)
     = calls (snd r1)
       ++ [EvCheckCredentials Scenario.Alice "main" "hunter2"; EvSetChangeNotifier 1 7]
  /\ attachments (snd r1) = 1
  /\ attachments (snd r2) = 2.
Proof. vm_compute. repeat split; reflexivity. Qed.

Lemma Login_attaches_notifier_witness :
  let r1 := Scenario.Login Scenario.healthy "alice@proton.me" "hunter2" Scenario.backend0 in
  let r2 := Scenario.Login Scenario.healthy "Alice@proton.me" "hunter2" (snd r1) in
  updates (snd r2) = 7
  /\ (exists pre, calls (snd r2) = pre ++ [EvSetChangeNotifier 1 7])
  /\ attachments (snd r2) = 2.
Proof.
  intros r1 r2.
  destruct (Login_attaches_notifier ToLower_ascii Scenario.decode Scenario.primary Scenario.healthy
              "Alice@proton.me" "hunter2" (snd r1)
              (mkIMAPUser 0 Scenario.Alice "addr-alice" "alice@proton.me") (snd r2))
    as [Hupd [Hlast Hcount]].
  - vm_compute. reflexivity.
  - split; [exact Hupd|]. split; [exact Hlast|exact Hcount].
Defined.

Lemma Login_credential_failure_witness :
  let r := Scenario.Login Scenario.healthy "Alice@proton.me" "letmein"
             Scenario.backend0 in
  let w := mkIMAPUser 0 Scenario.Alice "addr-alice" "alice@proton.me" in
  fst r = Err "backend/credentials: incorrect password"
  /\ calls (snd r)
     = [EvBringOnline Scenario.Alice "main" "letmein";
        EvCheckCredentials Scenario.Alice "main" "letmein";
        EvLogout w;
        EvSleep 10000000000%Z]
  /\ users (snd r) !! "alice@proton.me" = None.
Proof.
  intros r w.
  destruct (Login_credential_failure ToLower_ascii Scenario.decode
              Scenario.primary Scenario.healthy
              "Alice@proton.me" "letmein" Scenario.backend0) as [Hbad _].
  destruct (Hbad w "backend/credentials: incorrect password")
    as (Hrun & Hcalls & _ & Hcache); [vm_compute; reflexivity ..|].
  split; [exact (f_equal fst Hrun)|]. split; [exact Hcalls|].
  eapply eq_trans; [exact (Hcache "alice@proton.me")|].
  vm_compute. reflexivity.
Defined.

Lemma getUser_case_insensitive_witness :
  let w := mkIMAPUser 0 Scenario.Alice "addr-alice" "alice@proton.me" in
  let r := Scenario.getUser Scenario.healthy "ALICE@PROTON.ME" "main" "hunter2"
             Scenario.backend0 in
  fst r = Ok w
  /\ users (snd r) = <[ "alice@proton.me" := w ]> ∅
  /\ fst (Scenario.getUser Scenario.healthy "Alice@Proton.me" "main" "hunter2"
            (snd r)) = Ok w.
Proof.
  intros w r.
  destruct (getUser_case_insensitive ToLower_ascii Scenario.primary
              Scenario.healthy "Alice@Proton.me" "ALICE@PROTON.ME" "main"
              "hunter2" Scenario.backend0) as (_ & _ & Hmiss & _).
  { vm_compute. reflexivity. }
  destruct (Hmiss Scenario.Alice) as [_ Hnew];
    [vm_compute; reflexivity ..|].
  destruct (Hnew "addr-alice") as (Hfst & Husers & Hagain & _);
    [vm_compute; reflexivity ..|].
  split; [exact Hfst|]. split; [exact Husers|exact Hagain].
Defined.

End ImapTheory.

(** * Properties of the session registry *)

Module UsersTheory.

Import Users.

(** *** The look-up *)

Lemma hasUser_Some l id u :
  hasUser l id = Some u -> u ∈ l /\ u_ID u = id.
Proof.
  induction l as [|v l IH]; simpl; [done|].
  case_decide as Hid.
  - intros [= <-]. split; [left|done].
  - intros H. destruct (IH H). split; [by right|done].
Qed.

Lemma hasUser_None l id :
  hasUser l id = None <-> id ∉ u_ID <$> l.
Proof.
  induction l as [|v l IH]; simpl.
  - split; [intros _; apply not_elem_of_nil|done].
  - case_decide as Hid; rewrite not_elem_of_cons.
    + split; [done|]. by intros [Hne _].
    + rewrite IH. split; [intros H; split; [congruence|exact H]|by intros [_ H]].
Qed.

Lemma hasUser_is_Some l id :
  is_Some (hasUser l id) <-> id ∈ u_ID <$> l.
Proof.
  destruct (hasUser l id) as [u|] eqn:H.
  - split; [|by eauto]. intros _.
    destruct (hasUser_Some _ _ _ H) as [Hin <-].
    by apply list_elem_of_fmap_2.
  - split; [by intros [? [=]]|]. intros Hin.
    by apply hasUser_None in H.
Qed.


Lemma sessionsOf_None id st :
  hasUser (users st) id = None -> sessionsOf id st = [].
Proof.
  unfold sessionsOf. induction (users st) as [|v l IH]; simpl; [done|].
  case_decide as Hid; [done|]. intros H.
  rewrite filter_cons_False by done. by apply IH.
Qed.

Lemma filter_ID_absent l id :
  id ∉ u_ID <$> l -> filter (fun u => u_ID u = id) l = [].
Proof.
  induction l as [|v l IH]; [done|].
  rewrite fmap_cons, not_elem_of_cons. intros [Hne Hl].
  rewrite filter_cons_False by done. by apply IH.
Qed.

Lemma sessionsOf_Some id st u :
  NoDup (u_ID <$> users st) ->
  hasUser (users st) id = Some u -> sessionsOf id st = [u].
Proof.
  unfold sessionsOf. induction (users st) as [|v l IH]; simpl; [done|].
  rewrite NoDup_cons. intros [Hv Hl]. case_decide as Hid.
  - intros [= <-]. rewrite filter_cons_True by done.
    f_equal. apply filter_ID_absent. by rewrite <- Hid.
  - intros H. rewrite filter_cons_False by done. by apply IH.
Qed.

(** *** The transition of one object *)

Lemma connect_IDs ptr l :
  u_ID <$> map (fun u => if decide (u_ptr u = ptr) then connect u else u) l
  = u_ID <$> l.
Proof.
  induction l as [|v l IH]; simpl; [done|].
  f_equal; [|exact IH]. by case_decide.
Qed.

Lemma connect_ptrs ptr l :
  u_ptr <$> map (fun u => if decide (u_ptr u = ptr) then connect u else u) l
  = u_ptr <$> l.
Proof.
  induction l as [|v l IH]; simpl; [done|].
  f_equal; [|exact IH]. by case_decide.
Qed.

Lemma connect_hasUser l id u :
  hasUser l id = Some u ->
  hasUser (map (fun v => if decide (u_ptr v = u_ptr u) then connect v else v) l) id
  = Some (connect u).
Proof.
  induction l as [|v l IH]; simpl; [done|].
  destruct (decide (u_ID v = id)) as [Hid|Hid].
  - intros [= ->]. destruct (decide (u_ptr u = u_ptr u)); [|done].
    simpl. by rewrite decide_True.
  - intros H.
    assert (u_ID (if decide (u_ptr v = u_ptr u) then connect v else v) = u_ID v)
      as Hsame by (by case_decide).
    rewrite decide_False by (by rewrite Hsame). by apply IH.
Qed.

(** *** What the store operations do *)

Lemma unlockSequence_wrong deriveSecret client mailboxPassword salt e :
  AuthSalt client = Ok salt ->
  Unlock client (deriveSecret mailboxPassword salt) = Some e ->
  unlockSequence deriveSecret client mailboxPassword = Err ErrWrongMailboxPassword.
Proof. unfold unlockSequence. by intros -> ->. Qed.

(** *** The invariants *)

Lemma FinishLogin_wf deriveSecret reconnectKeyString client io auth
    mailboxPassword mainKey st :
  wf st ->
  wf (snd (FinishLogin deriveSecret reconnectKeyString client io auth
             mailboxPassword mainKey st)).
Proof.
  intros (Hid & Hptr & Hlt). unfold FinishLogin.
  destruct (unlockSequence _ _ _) as [[profile secret]|e]; [|done].
  destruct (hasUser (users st) (auth_UserID auth)) as [u|] eqn:Hu.
  - destruct (u_connected u); [done|].
    unfold credStorer_UpdateToken, credStorer_UpdatePassword. simpl.
    assert (Hconn : forall m c,
      wf (connectObject (u_ptr u) (mkUsers (users st) m (allocated st) c))).
    { intros m c. unfold wf, connectObject. simpl.
      rewrite connect_IDs, connect_ptrs. repeat split; [done..|].
      apply Forall_forall. intros v Hv.
      apply list_elem_of_fmap in Hv as (v0 & -> & Hv0).
      rewrite Forall_forall in Hlt. specialize (Hlt _ Hv0).
      by case_decide. }
    destruct (fault_UpdateToken io); [done|].
    destruct (credStorer st !! auth_UserID auth); [|done]. simpl.
    destruct (fault_UpdatePassword io); [done|].
    rewrite lookup_insert_eq. simpl. apply Hconn.
  - unfold credStorer_Add. simpl.
    destruct (answer_Add io); [|done]. simpl.
    apply hasUser_None in Hu.
    unfold wf. simpl. rewrite !fmap_app. simpl. repeat split.
    + apply NoDup_app. repeat split; [done| |apply NoDup_singleton].
      intros x Hx Hx'. apply list_elem_of_singleton in Hx'. by subst.
    + apply NoDup_app. repeat split; [done| |apply NoDup_singleton].
      intros x Hx Hx'. apply list_elem_of_singleton in Hx'. subst.
      apply list_elem_of_fmap in Hx as (v & Hv & Hin).
      rewrite Forall_forall in Hlt. specialize (Hlt _ Hin). lia.
    + apply Forall_app. split.
      * eapply Forall_impl; [exact Hlt|]. simpl. intros; lia.
      * apply Forall_singleton. simpl. lia.
Qed.

Lemma coherent_alt st :
  coherent st <->
  forall id, id ∈ dom (credStorer st) <-> id ∈ u_ID <$> users st.
Proof.
  unfold coherent. split; intros H id; specialize (H id).
  - by rewrite elem_of_dom, <- hasUser_is_Some.
  - by rewrite <- elem_of_dom, hasUser_is_Some.
Qed.

(** Overwriting the record of an account that has a session, and changing
    sessions without changing their ids, keeps the agreement. *)
Lemma coherent_update st l m a cs id c :
  coherent st ->
  is_Some (hasUser (users st) id) ->
  u_ID <$> l = u_ID <$> users st ->
  (m = credStorer st \/ exists m0, dom m0 = dom (credStorer st) /\ m = <[id := c]> m0) ->
  coherent (mkUsers l m a cs).
Proof.
  rewrite !coherent_alt. simpl. intros H Hid Hl Hm k. rewrite Hl.
  destruct Hm as [->|(m0 & Hdom & ->)]; [apply H|].
  rewrite dom_insert_L, Hdom, elem_of_union, elem_of_singleton, <- H.
  split; [|by right]. intros [->|Hk]; [|done].
  apply H. by apply hasUser_is_Some.
Qed.

Lemma FinishLogin_coherent deriveSecret reconnectKeyString client io auth
    mailboxPassword mainKey st :
  coherent st ->
  coherent (snd (FinishLogin deriveSecret reconnectKeyString client io auth
                   mailboxPassword mainKey st)).
Proof.
  intros Hl. unfold FinishLogin.
  destruct (unlockSequence _ _ _) as [[profile secret]|e]; [|done].
  destruct (hasUser (users st) (auth_UserID auth)) as [u|] eqn:Hu.
  - destruct (u_connected u); [by destruct st|].
    unfold credStorer_UpdateToken, credStorer_UpdatePassword. simpl.
    destruct (fault_UpdateToken io); [by destruct st|].
    destruct (credStorer st !! auth_UserID auth) as [c|] eqn:Hc;
      [|by destruct st]. simpl.
    destruct (fault_UpdatePassword io).
    + eapply coherent_update; [exact Hl|by rewrite Hu|done|].
      right. by eexists.
    + rewrite lookup_insert_eq. simpl. unfold connectObject. simpl.
      eapply coherent_update; [exact Hl|by rewrite Hu|apply connect_IDs|].
      right. eexists. split; [|reflexivity].
      rewrite dom_insert_L. apply (elem_of_dom_2 (D := gset string)) in Hc.
      apply subseteq_union_1_L. by apply singleton_subseteq_l.
  - unfold credStorer_Add. simpl.
    destruct (answer_Add io); [|by destruct st]. simpl.
    apply coherent_alt. intros k. simpl.
    pose proof (proj1 (coherent_alt _) Hl k) as Hk. clear Hl.
    rewrite dom_insert_L, fmap_app, elem_of_app, elem_of_union. simpl.
    rewrite elem_of_singleton, list_elem_of_singleton. simpl in Hk. tauto.
Qed.

(** Any sequence of [FinishLogin] calls keeps both invariants. *)
Lemma attempts_invariant deriveSecret reconnectKeyString l st :
  wf st /\ coherent st ->
  wf (attempts deriveSecret reconnectKeyString l st)
  /\ coherent (attempts deriveSecret reconnectKeyString l st).
Proof.
  revert st. induction l as [|a l IH]; intros st [Hwf Hcoh]; [done|].
  simpl. apply IH. unfold attempt. split.
  - by apply FinishLogin_wf.
  - by apply FinishLogin_coherent.
Qed.

Lemma imap_IDs (f : nat -> nat) ids :
  u_ID <$> imap (fun i id => mkUser (f i) id false) ids = ids.
Proof.
  revert f. induction ids as [|id ids IH]; intros f; simpl; [done|].
  f_equal. apply (IH (f ∘ S)).
Qed.

Lemma imap_ptrs n ids :
  u_ptr <$> imap (fun i id => mkUser (n + i) id false) ids = seq n (length ids).
Proof.
  revert n. induction ids as [|id ids IH]; intros n; simpl; [done|].
  f_equal; [lia|]. rewrite <- (IH (S n)). f_equal.
  apply imap_ext. intros i x _. simpl. f_equal. lia.
Qed.

Lemma load_wf store : wf (loadUsersFromCredentialsStore store).
Proof.
  unfold wf, loadUsersFromCredentialsStore. simpl.
  rewrite (imap_IDs id). rewrite (imap_ptrs 0). repeat split.
  - apply NoDup_fst_map_to_list.
  - apply NoDup_seq.
  - apply Forall_forall. intros u Hu.
    assert (u_ptr u ∈ seq 0 (length (map_to_list store).*1)) as Hin.
    { rewrite <- (imap_ptrs 0). by apply list_elem_of_fmap_2. }
    apply elem_of_seq in Hin. lia.
Qed.


(** *** The claims *)

Section Claims.

Variable deriveSecret : string -> string -> string.
Variable reconnectKeyString : string -> string -> string.

#[local] Abbreviation FinishLogin' :=
  (FinishLogin deriveSecret reconnectKeyString).
#[local] Abbreviation unlockSequence' := (unlockSequence deriveSecret).

(** C2. When the registry holds no session for the account of [auth]
    and the secret derived from the mailbox password does not unlock the
    keys, [FinishLogin] returns no session, the empty key string and
    [ErrWrongMailboxPassword], and leaves the registry and the store as
    they were: the registry still holds no session for the account. *)
Theorem FinishLogin_bad_mailbox_password client io auth mailboxPassword
    mainKey st salt e :
  hasUser (users st) (auth_UserID auth) = None ->
  AuthSalt client = Ok salt ->
  Unlock client (deriveSecret mailboxPassword salt) = Some e ->
  FinishLogin' client io auth mailboxPassword mainKey st
  = ((None, "", Some ErrWrongMailboxPassword), st)
  /\ sessionsOf (auth_UserID auth) st = [].
Proof.
  intros Hu Hsalt Hunlock. split; [|by apply sessionsOf_None].
  unfold FinishLogin.
  by rewrite (unlockSequence_wrong _ _ _ _ _ Hsalt Hunlock).
Qed.


(** C4. When the session of the account of [auth] exists and is
    Disconnected, a [FinishLogin] that succeeds returns that session
    object, now Connected; it has called [UpdateToken] and then
    [UpdatePassword] on the record of the account, which existed, and
    not [Add]: the store holds the same accounts as before, the record
    carrying the new tokens and secret; and the registry holds the same
    number of sessions, exactly one of them for the account. *)
Theorem FinishLogin_reconnects client io auth mailboxPassword mainKey st u
    session key st' :
  wf st ->
  hasUser (users st) (auth_UserID auth) = Some u ->
  u_connected u = false ->
  FinishLogin' client io auth mailboxPassword mainKey st
  = ((session, key, None), st') ->
  let id := auth_UserID auth in
  session = Some (connect u)
  /\ u_ptr (connect u) = u_ptr u
  /\ u_connected (connect u) = true
  /\ hasUser (users st') id = Some (connect u)
  /\ sessionsOf id st' = [connect u]
  /\ length (users st') = length (users st)
  /\ exists secret c,
       calls st'
       = calls st
         ++ [CallUpdateToken id (auth_UID auth) (auth_RefreshToken auth);
             CallUpdatePassword id secret]
       /\ credStorer st !! id = Some c
       /\ credStorer st'
          = <[id := mkCredentials id (auth_UID auth) (auth_RefreshToken auth)
                      secret (c_Emails c)]> (credStorer st)
       /\ dom (credStorer st') = dom (credStorer st).
Proof.
  intros Hwf Hu Hd Hrun id. set (id' := auth_UserID auth) in *.
  subst id. rename id' into id.
  pose proof (FinishLogin_wf deriveSecret reconnectKeyString client io auth
                mailboxPassword mainKey st Hwf) as Hwf'.
  rewrite Hrun in Hwf'. simpl in Hwf'. destruct Hwf' as (Hid' & _ & _).
  revert Hrun. unfold FinishLogin. cbv zeta. fold id.
  destruct (unlockSequence' client mailboxPassword) as [[profile secret]|e];
    [|done].
  rewrite Hu, Hd.
  unfold credStorer_UpdateToken, credStorer_UpdatePassword. simpl.
  destruct (fault_UpdateToken io); [done|].
  destruct (credStorer st !! id) as [c|] eqn:Hc; [|done]. simpl.
  destruct (fault_UpdatePassword io); [done|].
  rewrite lookup_insert_eq. simpl.
  intros [= <- <- <-].
  assert (Hhas : hasUser (users (connectObject (u_ptr u)
             (mkUsers (users st) ∅ 0 []))) id = Some (connect u))
    by (by apply connect_hasUser).
  simpl in Hhas.
  split; [done|]. split; [done|]. split; [done|]. split; [exact Hhas|].
  split; [by apply sessionsOf_Some|].
  split; [simpl; by rewrite length_map|].
  exists secret, c. simpl. rewrite <- app_assoc. simpl.
  split; [done|]. split; [done|]. rewrite insert_insert_eq.
  split; [done|]. rewrite dom_insert_L.
  apply (elem_of_dom_2 (D := gset string)) in Hc.
  apply subseteq_union_1_L. by apply singleton_subseteq_l.
Qed.



End Claims.

(** *** The claims on the concrete registry *)

Lemma FinishLogin_bad_mailbox_password_witness :
  UsersScenario.FinishLogin UsersScenario.client UsersScenario.noFaults
    UsersScenario.testAuthRefresh "guess" "main" UsersScenario.empty
  = ((None, "", Some ErrWrongMailboxPassword), UsersScenario.empty)
  /\ sessionsOf "user" UsersScenario.empty = [].
Proof.
  apply (FinishLogin_bad_mailbox_password UsersScenario.deriveSecret
           UsersScenario.reconnectKeyString UsersScenario.client
           UsersScenario.noFaults UsersScenario.testAuthRefresh "guess" "main"
           UsersScenario.empty "" "no keys could be unlocked");
    vm_compute; reflexivity.
Defined.



Lemma FinishLogin_reconnects_witness :
  let r := UsersScenario.FinishLogin UsersScenario.client UsersScenario.noFaults
             UsersScenario.testAuthRefresh "pass" "main"
             UsersScenario.disconnected in
  fst (fst (fst r)) = Some (mkUser 0 "user" true)
  /\ sessionsOf "user" (snd r) = [mkUser 0 "user" true]
  /\ length (users (snd r)) = length (users UsersScenario.disconnected).
Proof.
  intros r.
  destruct (FinishLogin_reconnects UsersScenario.deriveSecret
              UsersScenario.reconnectKeyString UsersScenario.client
              UsersScenario.noFaults UsersScenario.testAuthRefresh "pass" "main"
              UsersScenario.disconnected (mkUser 0 "user" false)
              (fst (fst (fst r))) (snd (fst (fst r))) (snd r))
    as (Hs & _ & _ & _ & Hone & Hlen & _).
  - apply load_wf.
  - vm_compute. reflexivity.
  - reflexivity.
  - vm_compute. reflexivity.
  - split; [exact Hs|]. split; [exact Hone|exact Hlen].
Defined.


End UsersTheory.

(** * Further properties of the IMAP backend *)

Module ImapCoverage.

Import Imap ImapRun.

Section Coverage.

Context {User Store : Type}.
Variable ToLower : string -> string.
Variable DecodeLogin : string -> string * string.
Variable GetPrimaryAddress : User -> string.

#[local] Abbreviation Backend := (imapBackend (User:=User) (Store:=Store)).
#[local] Abbreviation Collab := (Collaborators (User:=User) (Store:=Store)).
#[local] Abbreviation createUser' := (createUser ToLower GetPrimaryAddress).
#[local] Abbreviation getUser' := (getUser ToLower GetPrimaryAddress).
#[local] Abbreviation Login' := (Login ToLower DecodeLogin GetPrimaryAddress).
#[local] Abbreviation deleteUser' := (deleteUser ToLower).
#[local] Abbreviation canonical' := (canonical ToLower GetPrimaryAddress).
#[local] Abbreviation run' := (run ToLower DecodeLogin GetPrimaryAddress).
#[local] Abbreviation step' := (step ToLower DecodeLogin GetPrimaryAddress).

(** *** Entries are only ever added next to the ones there *)






(** *** Close-connection events *)

Lemma monitor_fields ch (ib : Backend) :
  updates (monitorDisconnectedUsers ToLower ch ib) = updates ib
  /\ allocated (monitorDisconnectedUsers ToLower ch ib) = allocated ib
  /\ calls (monitorDisconnectedUsers ToLower ch ib) = calls ib.
Proof.
  revert ib. induction ch as [|a ch IH]; intros ib; [done|].
  simpl. destruct (IH (deleteUser' a ib)) as (-> & -> & ->). done.
Qed.

Lemma monitor_lookup ch (ib : Backend) k :
  users (monitorDisconnectedUsers ToLower ch ib) !! k
  = if decide (k ∈ ToLower <$> ch) then None else users ib !! k.
Proof.
  unfold monitorDisconnectedUsers.
  revert ib. induction ch as [|a ch IH]; intros ib; cbn [fold_left].
  - rewrite decide_False; [done|]. apply not_elem_of_nil.
  - rewrite IH, fmap_cons. unfold deleteUser at 1. cbn [users set_users].
    destruct (decide (k ∈ ToLower <$> ch)) as [Hin|Hout].
    + rewrite decide_True; [done|]. by right.
    + rewrite lookup_delete. case_decide as Heq.
      * rewrite decide_True; [done|]. subst k. by left.
      * rewrite decide_False; [done|].
        rewrite not_elem_of_cons. split; [congruence|exact Hout].
Qed.

(** X2. After [monitorDisconnectedUsers] has handled a list of
    close-connection events, the entries gone are exactly those whose key
    is the lower-cased form of a received address, and nothing else of the
    backend has changed; so two lists of events with the same lower-cased
    addresses, in any order and with any repetition, leave the same
    backend. *)
Theorem monitorDisconnectedUsers_removes (ch : list string) (ib : Backend) :
  (forall k,
      users (monitorDisconnectedUsers ToLower ch ib) !! k
      = if decide (k ∈ ToLower <$> ch) then None else users ib !! k)
  /\ updates (monitorDisconnectedUsers ToLower ch ib) = updates ib
  /\ calls (monitorDisconnectedUsers ToLower ch ib) = calls ib
  /\ (forall ch',
        (forall k, k ∈ ToLower <$> ch <-> k ∈ ToLower <$> ch') ->
        monitorDisconnectedUsers ToLower ch ib
        = monitorDisconnectedUsers ToLower ch' ib).
Proof.
  split; [apply monitor_lookup|].
  destruct (monitor_fields ch ib) as (Hu & Ha & Hc).
  split; [exact Hu|]. split; [exact Hc|].
  intros ch' Hsame.
  destruct (monitor_fields ch' ib) as (Hu' & Ha' & Hc').
  assert (Hm : users (monitorDisconnectedUsers ToLower ch ib)
               = users (monitorDisconnectedUsers ToLower ch' ib)).
  { apply map_eq. intros k. rewrite !monitor_lookup.
    destruct (decide (k ∈ ToLower <$> ch)) as [Hin|Hout].
    - rewrite decide_True; [done|]. by apply Hsame.
    - rewrite decide_False; [done|]. intros Hin. by apply Hout, Hsame. }
  destruct (monitorDisconnectedUsers ToLower ch ib) as [m1 u1 a1 l1].
  destruct (monitorDisconnectedUsers ToLower ch' ib) as [m2 u2 a2 l2].
  simpl in *. congruence.
Qed.

(** *** What a successful login has established *)

Lemma getUser_cached (c : Collab) address slot password (ib : Backend) w ib1 :
  canonical' ib ->
  getUser' c address slot password ib = (Ok w, ib1) ->
  users ib1 !! ToLower (GetPrimaryAddress (iu_user w)) = Some w.
Proof.
  intros Hcan. unfold getUser.
  destruct (users ib !! ToLower address) as [w0|] eqn:Hhit.
  { intros [= <- <-]. by rewrite <- (Hcan _ _ Hhit). }
  intros Hcreate.
  pose proof (ImapTheory.createUser_inv ToLower GetPrimaryAddress c
                (ToLower address) slot password ib) as Hinv.
  rewrite Hcreate in Hinv. simpl in Hinv.
  inversion Hinv as [| |u w1 Hu Hb Hk|?|u aid Hu Hb Hk]; subst; simpl.
  - by rewrite <- (Hcan _ _ Hk).
  - by rewrite lookup_insert_eq.
Qed.

(** X3. In a backend reached by any sequence of calls, a [Login] that
    returns a session has had [CheckCredentials] accept the slot and the
    password for the user of that session, and the session returned is the
    wrapper the cache holds under the lower-cased primary address of that
    user. *)
Theorem Login_success (ops : list Op) (updatesObj : nat) (c : Collab)
    username password w ib' :
  Login ToLower DecodeLogin GetPrimaryAddress c username password
    (run' ops (NewIMAPBackend updatesObj)) = (Ok w, ib') ->
  user_CheckCredentials c (iu_user w) (DecodeLogin username).2 password = None
  /\ users ib' !! ToLower (GetPrimaryAddress (iu_user w)) = Some w
  /\ In (EvCheckCredentials (iu_user w) (DecodeLogin username).2 password)
       (calls ib').
Proof.
  set (ib := run' ops (NewIMAPBackend updatesObj)).
  assert (Hcan : canonical' ib)
    by apply ImapTheory.run_canonical, ImapTheory.NewIMAPBackend_canonical.
  unfold Login. destruct (DecodeLogin username) as [address slot]. simpl.
  destruct (getUser' c address slot password ib) as [[w1|e] ib1] eqn:Hget;
    [|done].
  pose proof (getUser_cached c address slot password ib w1 ib1 Hcan Hget)
    as Hcached.
  destruct (user_CheckCredentials c (iu_user w1) slot password) eqn:Hcheck;
    [done|].
  intros [= <- <-]. split; [exact Hcheck|].
  destruct (user_GetStore c (iu_user w1)); simpl.
  - split; [exact Hcached|]. rewrite <- app_assoc. apply in_or_app. right.
    by left.
  - split; [exact Hcached|]. apply in_or_app. right. by left.
Qed.

(** *** One change notifier *)

#[local] Abbreviation one_notifier n ib :=
  (updates ib = n
   /\ forall s m, In (EvSetChangeNotifier s m) (calls ib) -> m = n).

Lemma getUser_one_notifier n (c : Collab) address slot password (ib : Backend) :
  one_notifier n ib ->
  one_notifier n (snd (getUser' c address slot password ib)).
Proof.
  intros [Hu Hall]. split.
  - by rewrite ImapTheory.getUser_updates.
  - intros s m.
    destruct (ImapTheory.getUser_calls ToLower GetPrimaryAddress c address slot
                password ib) as [->|[u ->]]; [apply Hall|].
    intros Hin. apply in_app_or in Hin as [Hin|[Hin|[]]]; [by eapply Hall|].
    discriminate.
Qed.

Lemma step_one_notifier n (ib : Backend) op :
  one_notifier n ib -> one_notifier n (step' ib op).
Proof.
  intros Hone. destruct op as [c username password|c a slot password|a];
    simpl; [|by apply getUser_one_notifier|exact Hone].
  unfold Login. destruct (DecodeLogin username) as [address slot].
  pose proof (getUser_one_notifier n c address slot password ib Hone)
    as [Hu Hall].
  destruct (getUser' c address slot password ib) as [[w|e] ib1];
    cbn [snd fst] in *; [|by split].
  assert (Hstep : forall e0,
             (forall s m, e0 = EvSetChangeNotifier s m -> m = n) ->
             forall ib2 : Backend, one_notifier n ib2 -> one_notifier n (emit e0 ib2)).
  { intros e0 He0 ib2 [Hu2 Hall2]. split; [exact Hu2|].
    intros s m Hin. simpl in Hin.
    apply in_app_or in Hin as [Hin|[Hin|[]]]; [by eapply Hall2|].
    by eapply He0. }
  assert (H1 : one_notifier n
                 (emit (EvCheckCredentials (iu_user w) slot password) ib1)).
  { apply Hstep; [discriminate|by split]. }
  destruct (user_CheckCredentials c (iu_user w) slot password); cbn [snd].
  - apply Hstep; [discriminate|].
    destruct (ImapTheory.Logout_fields ToLower c w
                (emit (EvCheckCredentials (iu_user w) slot password) ib1))
      as (Hupd & _ & Hlog).
    split; [by rewrite Hupd|]. intros s m. rewrite Hlog. intros Hin.
    apply in_app_or in Hin as [Hin|[Hin|[]]]; [|discriminate].
    destruct H1 as [_ H1]. by eapply H1.
  - destruct (user_GetStore c (iu_user w)) as [store|]; cbn [snd]; [|exact H1].
    apply Hstep; [|exact H1]. intros s m [= _ <-]. exact Hu.
Qed.

Lemma run_one_notifier n ops (ib : Backend) :
  one_notifier n ib -> one_notifier n (run' ops ib).
Proof.
  revert ib. induction ops as [|op ops IH]; intros ib Hone; [exact Hone|].
  cbn [run fold_left]. apply IH. by apply step_one_notifier.
Qed.

(** X4. Whatever calls a backend has served, its [updates] object is the
    one [NewIMAPBackend] made, and every [SetChangeNotifier] it has ever
    issued, on whichever store, passed that one object. *)
Theorem one_change_notifier (ops : list Op) (updatesObj : nat) :
  let ib : Backend :=
    run ToLower DecodeLogin GetPrimaryAddress ops (NewIMAPBackend updatesObj) in
  updates ib = updatesObj
  /\ forall s m, In (EvSetChangeNotifier s m) (calls ib) -> m = updatesObj.
Proof.
  apply run_one_notifier. split; [done|]. intros s m [].
Qed.

(** X5. The login that follows a close-connection event.  When the
    address of the event lower-cases to the primary address of the account
    it resolves to, [getUser] builds a new wrapper object around the user
    the registry returns now, whatever was cached before, and caches it.
    When the address is an alias (it lower-cases to another string than
    the primary address), the event has evicted nothing of that account:
    [getUser] still returns the wrapper cached under the primary
    address. *)
Theorem getUser_after_close (c : Collab) address slot password (ib : Backend)
    u addressID :
  usersMgr_GetUser c (ToLower address) = Ok u ->
  user_BringOnline c u slot password = None ->
  let key := ToLower (GetPrimaryAddress u) in
  user_GetAddressID c u key = Ok addressID ->
  newIMAPUser_fails c u addressID key = None ->
  let closed := deleteUser ToLower address ib in
  (ToLower address = key ->
     let w := mkIMAPUser (allocated ib) u addressID key in
     fst (getUser' c address slot password closed) = Ok w
     /\ users (snd (getUser' c address slot password closed)) !! key = Some w)
  /\ (ToLower address <> key ->
      forall w, users ib !! key = Some w ->
        fst (getUser' c address slot password closed) = Ok w
        /\ users (snd (getUser' c address slot password closed)) !! key = Some w).
Proof.
  intros Hu Hb key Haid Hnew closed. subst closed.
  unfold getUser, deleteUser, set_users. simpl.
  rewrite lookup_delete_eq. unfold createUser. rewrite Hu. simpl.
  rewrite Hb. fold key. split.
  - intros Heq. rewrite Heq, lookup_delete_eq, Haid.
    unfold newIMAPUser. simpl. rewrite Hnew. simpl.
    split; [done|]. by rewrite lookup_insert_eq.
  - intros Hne w Hw. rewrite lookup_delete_ne by done. rewrite Hw. simpl.
    split; [done|]. by rewrite lookup_delete_ne.
Qed.

End Coverage.

(** *** On the concrete deployment *)


Lemma Login_success_witness :
  let w := mkIMAPUser 0 Scenario.Alice "addr-alice" "alice@proton.me" in
  Scenario.check Scenario.Alice "main" "hunter2" = None
  /\ users (snd (Scenario.Login Scenario.healthy "alice.alias@proton.me"
                   "hunter2" Scenario.backend0)) !! "alice@proton.me" = Some w.
Proof.
  intros w.
  destruct (Login_success ToLower_ascii Scenario.decode Scenario.primary []
              7 Scenario.healthy "alice.alias@proton.me" "hunter2" w
              (snd (Scenario.Login Scenario.healthy "alice.alias@proton.me"
                      "hunter2" Scenario.backend0)))
    as (Hcheck & Hcached & _).
  - vm_compute. reflexivity.
  - split; [exact Hcheck|exact Hcached].
Defined.

Lemma getUser_after_close_witness :
  let ib := snd (Scenario.Login Scenario.healthy "alice@proton.me" "hunter2"
                   Scenario.backend0) in
  let old := mkIMAPUser 0 Scenario.Alice "addr-alice" "alice@proton.me" in
  let new := mkIMAPUser 1 Scenario.Alice "addr-alice" "alice@proton.me" in
  fst (Scenario.getUser Scenario.healthy "ALICE@proton.me" "main" "hunter2"
         (Scenario.deleteUser "ALICE@proton.me" ib)) = Ok new
  /\ fst (Scenario.getUser Scenario.healthy "alice.alias@proton.me" "main"
            "hunter2" (Scenario.deleteUser "alice.alias@proton.me" ib)) = Ok old.
Proof.
  intros ib old new. split.
  - destruct (getUser_after_close ToLower_ascii Scenario.primary
                Scenario.healthy "ALICE@proton.me" "main" "hunter2" ib
                Scenario.Alice "addr-alice") as [Hprimary _];
      [vm_compute; reflexivity ..|].
    destruct Hprimary as [Hnew _]; [vm_compute; reflexivity|exact Hnew].
  - destruct (getUser_after_close ToLower_ascii Scenario.primary
                Scenario.healthy "alice.alias@proton.me" "main" "hunter2" ib
                Scenario.Alice "addr-alice") as [_ Halias];
      [vm_compute; reflexivity ..|].
    destruct (Halias ltac:(vm_compute; discriminate) old) as [Hold _];
      [vm_compute; reflexivity|exact Hold].
Defined.

End ImapCoverage.

(** * Properties of the key-value store *)

Module SettingsTheory.

Import Settings.

Lemma Get_set_same key value m pth :
  Get key (mkKeyValueStore (Some (<[key := value]> m)) pth) = value.
Proof. unfold Get. simpl. by rewrite lookup_insert_eq. Qed.

Lemma Get_set_other key k value m pth :
  k <> key ->
  Get k (mkKeyValueStore (Some (<[key := value]> m)) pth)
  = Get k (mkKeyValueStore (Some m) pth).
Proof. intros Hne. unfold Get. simpl. by rewrite lookup_insert_ne. Qed.

Lemma length_zero_empty (data : string) : String.length data = 0 -> data = "".
Proof. by destruct data. Qed.

(** X6. When the preferences file cannot be read, or is empty,
    [newKeyValueStore] still returns a store, with an empty map that is
    not [nil]: every key reads as the empty string, [false], [0] and the
    zero float, and a write does not panic. *)
Theorem newKeyValueStore_unreadable {float64 : Type}
    (Atoi : string -> Z * option error)
    (ParseFloat64 : string -> float64 * option error) (zero : float64)
    (fs : Files) (pth : string) :
  (forall data, ReadFile fs pth = Ok data -> data = "") ->
  let p := newKeyValueStore fs pth in
  p = mkKeyValueStore (Some ∅) pth
  /\ forall key,
       Get key p = ""
       /\ GetBool key p = false
       /\ GetInt Atoi key p = 0%Z
       /\ GetFloat64 ParseFloat64 zero key p = zero
       /\ forall value, is_Some (set key value p).
Proof.
  intros Hfile p.
  assert (Hp : p = mkKeyValueStore (Some ∅) pth).
  { subst p. unfold newKeyValueStore, load. simpl.
    destruct (ReadFile fs pth) as [data|err] eqn:Hread; [|done].
    rewrite (Hfile data eq_refl). done. }
  split; [exact Hp|]. rewrite Hp. intros key.
  assert (Hget : Get key (mkKeyValueStore (Some ∅) pth) = "").
  { unfold Get. simpl. by rewrite lookup_empty. }
  unfold GetBool, GetInt, GetFloat64. rewrite Hget.
  repeat split; done.
Qed.

(** X7. A load that has failed is not tried again: once
    [newKeyValueStore] has found the file unreadable or empty, a later
    [load] returns no error without reading anything, whatever the file
    system holds by then, and every key still reads as the empty
    string. *)
Theorem load_not_retried (fs fs' : Files) (pth : string) :
  (forall data, ReadFile fs pth = Ok data -> data = "") ->
  let p := newKeyValueStore fs pth in
  load fs' p = (None, p)
  /\ forall key, Get key (snd (load fs' p)) = "".
Proof.
  intros Hfile p.
  assert (Hp : p = mkKeyValueStore (Some ∅) pth).
  { subst p. unfold newKeyValueStore, load. simpl.
    destruct (ReadFile fs pth) as [data|err] eqn:Hread; [|done].
    rewrite (Hfile data eq_refl). done. }
  rewrite Hp. split; [done|]. intros key. unfold Get. simpl.
  by rewrite lookup_empty.
Qed.

(** X8. On a store whose map is not [nil], [set] does not panic; the key
    then reads as the value written, [GetBool] of it is [true] exactly
    when that value is the string [true], every other key reads as
    before, and the path is kept. *)
Theorem set_then_Get (key value : string) (p : keyValueStore) :
  is_Some (cache p) ->
  exists p',
    set key value p = Some p'
    /\ Get key p' = value
    /\ (GetBool key p' = true <-> value = "true")
    /\ (forall k, k <> key -> Get k p' = Get k p)
    /\ path p' = path p
    /\ is_Some (cache p').
Proof.
  destruct p as [[m|] pth]; intros [m' Hm]; [|done].
  eexists. split; [reflexivity|]. simpl.
  split; [apply Get_set_same|]. split.
  - unfold GetBool. rewrite Get_set_same. apply bool_decide_eq_true.
  - split; [intros k Hk; by apply Get_set_other|]. split; [done|by eexists].
Qed.

(** X9. On a store whose map is not [nil], [setDefault] does not panic;
    it writes the value when the key reads as the empty string (a key
    never written, or one written with the empty string) and leaves the
    whole store as it is otherwise; every other key reads as before. *)
Theorem setDefault_then_Get (key value : string) (p : keyValueStore) :
  is_Some (cache p) ->
  exists p',
    setDefault key value p = Some p'
    /\ Get key p' = (if decide (Get key p = "") then value else Get key p)
    /\ (Get key p <> "" -> p' = p)
    /\ (forall k, k <> key -> Get k p' = Get k p)
    /\ is_Some (cache p').
Proof.
  destruct p as [[m|] pth]; intros [m' Hm]; [|done].
  unfold setDefault.
  destruct (decide (Get key (mkKeyValueStore (Some m) pth) = "")) as [He|Hne].
  - eexists. split; [reflexivity|]. simpl.
    split; [apply Get_set_same|]. split; [done|].
    split; [intros k Hk; by apply Get_set_other|by eexists].
  - eexists. split; [reflexivity|]. repeat split; done.
Qed.

(** X10. How defaults compose.  After [setDefault] with a non-empty value
    the key reads as non-empty, so a second [setDefault] for it, with any
    value, changes nothing: the first default stays.  And a key written
    with the empty string by [set] is taken for one with no value: the
    next [setDefault] replaces it. *)
Theorem setDefault_first_wins (key v1 v2 : string) (p : keyValueStore) :
  is_Some (cache p) ->
  v1 <> "" ->
  (exists p1,
      setDefault key v1 p = Some p1
      /\ Get key p1 <> ""
      /\ setDefault key v2 p1 = Some p1)
  /\ (exists p1 p2,
        set key "" p = Some p1
        /\ setDefault key v1 p1 = Some p2
        /\ Get key p2 = v1).
Proof.
  destruct p as [[m|] pth]; intros [m' Hm] Hv1; [|done]. split.
  - unfold setDefault at 1.
    destruct (decide (Get key (mkKeyValueStore (Some m) pth) = "")) as [He|Hne].
    + eexists. split; [reflexivity|]. simpl.
      assert (Hget : Get key (mkKeyValueStore (Some (<[key:=v1]> m)) pth) = v1)
        by apply Get_set_same.
      split; [by rewrite Hget|].
      unfold setDefault. rewrite Hget. by rewrite decide_False.
    + eexists. split; [reflexivity|]. split; [done|].
      unfold setDefault. by rewrite decide_False.
  - eexists _, _. split; [reflexivity|]. simpl.
    unfold setDefault. rewrite Get_set_same. rewrite decide_True by done.
    split; [reflexivity|]. simpl. apply Get_set_same.
Qed.

Lemma write_loaded w p :
  is_Some (cache p) ->
  exists p', write w p = Some p' /\ is_Some (cache p') /\ path p' = path p.
Proof.
  destruct p as [[m|] pth]; intros [m' Hm]; [|done].
  destruct w as [key value|key value]; simpl.
  - eexists. split; [reflexivity|]. split; [by eexists|done].
  - unfold setDefault. case_decide.
    + eexists. split; [reflexivity|]. split; [by eexists|done].
    + eexists. split; [reflexivity|]. split; [by eexists|done].
Qed.

(** X11. Writes never panic on a store whose map is not [nil]: any
    sequence of [set] and [setDefault] runs to its end and leaves a store
    with a map and the same path.  On a store whose map is [nil] every
    non-empty sequence panics at its first write, while [Get] reads the
    empty string for every key. *)
Theorem writes_panic_only_on_nil (ws : list Write) (p : keyValueStore) :
  (is_Some (cache p) ->
     exists p', writes ws p = Some p' /\ is_Some (cache p') /\ path p' = path p)
  /\ (cache p = None ->
      (ws <> [] -> writes ws p = None) /\ forall key, Get key p = "").
Proof.
  split.
  - revert p. induction ws as [|w ws IH]; intros p Hp; simpl.
    + by eexists.
    + destruct (write_loaded w p Hp) as (p1 & -> & Hp1 & Hpath).
      destruct (IH p1 Hp1) as (p' & Hws & Hp' & Hpath').
      exists p'. split; [exact Hws|]. split; [exact Hp'|congruence].
  - intros Hnil. split.
    + destruct ws as [|w ws]; [done|]. intros _. simpl.
      destruct w as [key value|key value]; simpl.
      * unfold set. by rewrite Hnil.
      * unfold setDefault, Get, set. rewrite Hnil. by rewrite decide_True.
    + intros key. unfold Get. by rewrite Hnil.
Qed.

(** *** On the concrete file system *)

Lemma newKeyValueStore_unreadable_witness :
  SettingsScenario.store0 = mkKeyValueStore (Some ∅) "prefs.json"
  /\ Get "user_ssl_smtp" SettingsScenario.store0 = ""
  /\ GetBool "user_ssl_smtp" SettingsScenario.store0 = false.
Proof.
  destruct (newKeyValueStore_unreadable (fun _ => (0%Z, None))
              (fun _ => (0%Z, None)) 0%Z SettingsScenario.noFile "prefs.json")
    as [Hp Hkeys].
  - intros data. vm_compute. discriminate.
  - destruct (Hkeys "user_ssl_smtp") as (Hget & Hbool & _).
    split; [exact Hp|]. split; [exact Hget|exact Hbool].
Defined.

Lemma load_not_retried_witness :
  load SettingsScenario.withFile SettingsScenario.store0
  = (None, SettingsScenario.store0).
Proof.
  destruct (load_not_retried SettingsScenario.noFile SettingsScenario.withFile
              "prefs.json") as [Hload _].
  - intros data. vm_compute. discriminate.
  - exact Hload.
Defined.

Lemma set_then_Get_witness :
  exists p',
    set "user_ssl_smtp" "true" SettingsScenario.store0 = Some p'
    /\ Get "user_ssl_smtp" p' = "true".
Proof.
  destruct (set_then_Get "user_ssl_smtp" "true" SettingsScenario.store0)
    as (p' & Hset & Hget & _).
  - vm_compute. by eexists.
  - exists p'. split; [exact Hset|exact Hget].
Defined.

Lemma setDefault_then_Get_witness :
  exists p',
    setDefault "user_port_imap" "1143" SettingsScenario.store0 = Some p'
    /\ Get "user_port_imap" p' = "1143".
Proof.
  destruct (setDefault_then_Get "user_port_imap" "1143" SettingsScenario.store0)
    as (p' & Hset & Hget & _).
  - vm_compute. by eexists.
  - exists p'. split; [exact Hset|exact Hget].
Defined.

Lemma setDefault_first_wins_witness :
  exists p1,
    setDefault "user_port_imap" "1143" SettingsScenario.store0 = Some p1
    /\ setDefault "user_port_imap" "993" p1 = Some p1.
Proof.
  destruct (setDefault_first_wins "user_port_imap" "1143" "993"
              SettingsScenario.store0) as [(p1 & H1 & _ & H2) _].
  - vm_compute. by eexists.
  - discriminate.
  - exists p1. split; [exact H1|exact H2].
Defined.

End SettingsTheory.
